(** * MLT: the streaming feature-extraction pipeline of [script.js]

    A shallow embedding of the parts of [src/script.js] that carry the
    pipeline: the typed-array helpers [flattenQueue] and
    [getInputTensorFromFrequencyData], the [Tracker] firing gate, the
    [BrowserFftFeatureExtractor] state machine, [normalize], and the score
    accumulation of [spectrogramCallback] / [showMP3Result].

    Modelling conventions.
    - A JavaScript object with mutable fields is a record; a method is a
      computation in a state-and-exception monad whose state survives a
      [throw], as the fields of [this] do.
    - Counters, lengths and frame counts are integers ([Z]); fractions and
      milliseconds are rationals ([Q]); sample values are [JS.num], rationals
      extended with NaN and the two infinities.  Binary rounding is not
      modelled for them.
    - The tensors of [normalize] are the exception: they hold IEEE 754
      binary32 values and its arithmetic is rounded, as in the float32
      kernels of TensorFlow.js.
    - An [async] function that throws returns a rejected promise; both are
      the [Throw] outcome here.  The scoring callback is run to completion
      inside the tick that invokes it. *)

From Stdlib Require Import ZArith QArith Qround Qabs Lia.
From Stdlib Require Lqa String SpecFloat.
From stdpp Require Import base tactics option list.

Set Default Proof Using "Type".
Open Scope Z_scope.

(** ** JavaScript numbers *)

Module JS.

Inductive num : Type :=
  | Fin (q : Q)
  | NaN
  | PosInf
  | NegInf.

Definition zero : num := Fin 0.
Definition of_Z (z : Z) : num := Fin (inject_Z z).

(** [a === b] on numbers: NaN equals nothing, not even itself. *)
Definition strict_eq (a b : num) : bool :=
  match a, b with
  | Fin p, Fin q => Qeq_bool p q
  | PosInf, PosInf | NegInf, NegInf => true
  | _, _ => false
  end.

Definition add (a b : num) : num :=
  match a, b with
  | NaN, _ | _, NaN => NaN
  | PosInf, NegInf | NegInf, PosInf => NaN
  | PosInf, _ | _, PosInf => PosInf
  | NegInf, _ | _, NegInf => NegInf
  | Fin p, Fin q => Fin (p + q)
  end.

(** Sign of a finite value, a zero counting as positive. *)
Definition nonneg (q : Q) : bool := Qle_bool 0 q.

Definition signed_inf (positive : bool) : num :=
  if positive then PosInf else NegInf.

(** [a / b].  A finite non-zero value over zero is an infinity, and zero
    over zero is NaN: a division never throws. *)
Definition div (a b : num) : num :=
  match a, b with
  | NaN, _ | _, NaN => NaN
  | (PosInf | NegInf), (PosInf | NegInf) => NaN
  | PosInf, Fin q => signed_inf (nonneg q)
  | NegInf, Fin q => signed_inf (negb (nonneg q))
  | Fin _, (PosInf | NegInf) => Fin 0
  | Fin p, Fin q =>
      if Qeq_bool q 0 then
        if Qeq_bool p 0 then NaN else signed_inf (nonneg p)
      else Fin (p / q)
  end.

(** [a > b]; any comparison with NaN is false. *)
Definition gt (a b : num) : bool :=
  match a, b with
  | NaN, _ | _, NaN => false
  | PosInf, PosInf => false
  | PosInf, _ => true
  | _, PosInf => false
  | NegInf, _ => false
  | Fin _, NegInf => true
  | Fin p, Fin q => negb (Qle_bool p q)
  end.

(** [Math.round] on a finite value: the nearest integer, ties upwards. *)
Definition round (q : Q) : Z := Qfloor (q + (1 # 2)).

(** [Number(x.toFixed(3))].  [toFixed] rounds the magnitude of [x] to the
    nearest decimal with three fractional digits, the larger one on a tie,
    and puts the sign back; from 1e21 on, and for NaN and the infinities, it
    prints the number itself.  [x] is the exact value here: the code rounds
    the double nearest to it, which may lie on the other side of a tie. *)
Definition toFixed3 (a : num) : num :=
  match a with
  | Fin q =>
      if Qle_bool (inject_Z (10 ^ 21)) (Qabs q) then Fin q
      else
        let n := (inject_Z (round (Qabs q * 1000)) / 1000)%Q in
        Fin (if nonneg q then n else - n)
  | other => other
  end.

(** [Math.max(...xs)]: NaN as soon as one argument is NaN, and negative
    infinity for no argument. *)
Definition max2 (a b : num) : num :=
  match a, b with
  | NaN, _ | _, NaN => NaN
  | _, _ => if gt b a then b else a
  end.

Definition max_of (xs : list num) : num := foldr max2 NegInf xs.

(** [xs.indexOf(v)] with strict equality; -1 when absent. *)
Fixpoint indexOf_from (i : Z) (xs : list num) (v : num) : Z :=
  match xs with
  | [] => -1
  | x :: rest => if strict_eq x v then i else indexOf_from (i + 1) rest v
  end.

Definition indexOf (xs : list num) (v : num) : Z := indexOf_from 0 xs v.

End JS.

(** ** Exceptions and the state-and-exception monad *)

Inductive exn : Type :=
  | InvalidArgument   (* [Error] thrown by a constructor's validation *)
  | IllegalState      (* [Error] thrown by [start] / [stop] *)
  | TypeError         (* a property read or call on [undefined] *)
  | RangeError.       (* typed-array length or offset out of range *)

Inductive result (A : Type) : Type :=
  | Ok (a : A)
  | Throw (e : exn).
Arguments Ok {A} a.
Arguments Throw {A} e.

Definition result_bind {A B} (r : result A) (k : A → result B) : result B :=
  match r with
  | Ok a => k a
  | Throw e => Throw e
  end.

Declare Scope result_scope.
Delimit Scope result_scope with result.
Notation "'let?' x ':=' r 'in' k" := (result_bind r (fun x => k))
  (at level 10, x name, r at level 200, k at level 200) : result_scope.

(** A method of an object with fields [S]: the state is threaded through,
    and is kept when the method throws. *)
Definition M (S A : Type) : Type := S → S * result A.

Module Monad.
Section defs.
Context {S : Type}.

Definition ret {A} (a : A) : M S A := fun s => (s, Ok a).
Definition throw {A} (e : exn) : M S A := fun s => (s, Throw e).
Definition get : M S S := fun s => (s, Ok s).
Definition modify (f : S → S) : M S unit := fun s => (f s, Ok tt).
Definition lift {A} (r : result A) : M S A := fun s => (s, r).
Definition bind {A B} (m : M S A) (k : A → M S B) : M S B :=
  fun s =>
    match m s with
    | (s', Ok a) => k a s'
    | (s', Throw e) => (s', Throw e)
    end.

End defs.
End Monad.

Declare Scope monad_scope.
Delimit Scope monad_scope with monad.
Notation "'let*' x ':=' m 'in' k" := (Monad.bind m (fun x => k))
  (at level 10, x name, m at level 200, k at level 200) : monad_scope.

Open Scope result_scope.

(** ** Typed arrays and tensors *)

Module TypedArray.

(** A [Float32Array], as the list of its elements. *)
Abbreviation t := (list JS.num) (only parsing).

(** [new Float32Array(n)]: [n] zeros; a negative length is a RangeError. *)
Definition make (n : Z) : result t :=
  if decide (n < 0) then Throw RangeError
  else Ok (replicate (Z.to_nat n) JS.zero).

(** [dst.set(src, offset)]: copies [src] over [dst] from [offset] on; a
    negative offset, or a source that does not fit, is a RangeError. *)
Definition set (dst src : t) (offset : Z) : result t :=
  if decide (offset < 0 ∨ Z.of_nat (length dst) < offset + Z.of_nat (length src))
  then Throw RangeError
  else Ok (take (Z.to_nat offset) dst ++ src
             ++ drop (Z.to_nat offset + length src) dst).

(** [a.slice(0, e)]: a fresh copy of the first [e] elements; a negative
    [e] counts from the end, and [e] is clamped to the length. *)
Definition slice0 (a : t) (e : Z) : t :=
  let len := Z.of_nat (length a) in
  let final := if decide (e < 0) then Z.max (len + e) 0 else Z.min e len in
  take (Z.to_nat final) a.

(** [a.slice()]: a fresh copy of the whole array. *)
Definition slice (a : t) : t := a.

End TypedArray.

Abbreviation Frame := (list JS.num) (only parsing).

Record Tensor : Type := mkTensor {
  values : TypedArray.t;
  shape : list Z
}.

Definition sizeFromShape (shape : list Z) : Z := foldr Z.mul 1 shape.

(** The [forEach] of [flattenQueue]: frame number [i] is copied to offset
    [i * frameSize]. *)
Fixpoint set_each (frameSize i : Z) (queue : list Frame) (freqData : TypedArray.t)
  : result TypedArray.t :=
  match queue with
  | [] => Ok freqData
  | data :: rest =>
      let? freqData' := TypedArray.set freqData data (i * frameSize) in
      set_each frameSize (i + 1) rest freqData'
  end.

Definition flattenQueue (queue : list Frame) : result TypedArray.t :=
  match queue with
  | [] => Throw TypeError                       (* [queue[0].length] *)
  | first :: _ =>
      let frameSize := Z.of_nat (length first) in
      let? freqData := TypedArray.make (Z.of_nat (length queue) * frameSize) in
      set_each frameSize 0 queue freqData
  end.

(** [tf.tensor(vals, shape)] is the tensor of these values and this shape;
    the shapes it refuses, those with a negative dimension, are not told
    apart here. *)
Definition getInputTensorFromFrequencyData (freqData : TypedArray.t) (shape : list Z)
  : result Tensor :=
  let? vals := TypedArray.make (sizeFromShape shape) in
  let? vals' := TypedArray.set vals freqData
                  (Z.of_nat (length vals) - Z.of_nat (length freqData)) in
  Ok (mkTensor vals' shape).

(** ** Tracker *)

Module Tracker.

Record t : Type := mk {
  period : Z;
  suppressionTime : Z;
  counter : Z;
  suppressionOnset : option Z          (* [None]: the field was never set *)
}.

Definition set_counter (c : Z) (this : t) : t :=
  mk (period this) (suppressionTime this) c (suppressionOnset this).
Definition set_suppressionOnset (o : option Z) (this : t) : t :=
  mk (period this) (suppressionTime this) (counter this) o.

(** [new Tracker(period, suppressionPeriod)]; [None] stands for a [null] or
    [undefined] second argument. *)
Definition new (period : Z) (suppressionPeriod : option Z) : result t :=
  let this :=
    mk period
       (match suppressionPeriod with None => 0 | Some s => s end)
       0 None in
  if decide (period > 0) then Ok this else Throw InvalidArgument.

(** [a % b === 0]; the remainder by zero is NaN, which is not 0. *)
Definition rem_is_zero (a b : Z) : bool :=
  if decide (b = 0) then false else bool_decide (Z.rem a b = 0).

Definition tick : M t bool := fun this =>
  let this := set_counter (counter this + 1) this in
  let shouldFire :=
    rem_is_zero (counter this) (period this)
    && match suppressionOnset this with
       | None => true
       | Some onset => bool_decide (counter this - onset > suppressionTime this)
       end in
  (this, Ok shouldFire).

Definition suppress : M t unit := fun this =>
  (set_suppressionOnset (Some (counter this)) this, Ok tt).

End Tracker.

(** ** BrowserFftFeatureExtractor *)

(** The Web Audio objects the extractor holds.  They are collaborators of
    the pipeline: only the fields the extractor writes are kept. *)
Record AnalyserNode : Type := mkAnalyser {
  node_fftSize : Z;
  smoothingTimeConstant : Q;
  connected : bool
}.

Record AudioContext : Type := mkAudioContext { closed : bool }.

(** A media stream: one flag per track, set once the track is stopped. *)
Record MediaStream : Type := mkStream { tracks_stopped : list bool }.

(** The task created by [setInterval], with its interval in milliseconds. *)
Record IntervalTask : Type := mkTask { intervalMillis : Q }.

(** [analyser.getFloatFrequencyData(buf)] and
    [analyser.getFloatTimeDomainData(buf)]: the node's current [sample]
    overwrites [buf]; what does not fit is dropped, and what the sample does
    not cover is left as it was. *)
Definition getFloatData (buf sample : TypedArray.t) : TypedArray.t :=
  take (length buf) sample ++ drop (length sample) buf.

(** The scoring callback, by what it answers on the tensors it is given:
    whether the tracker is to rest.  It stands for a callback that returns;
    one that throws, or that is still running when the next tick comes, is
    outside the model. *)
Definition Callback : Type := Tensor → option Tensor → bool.

(** The configuration object.  [None] is a field that is absent, [null] or
    [undefined]; the three parameters without a default are numbers. *)
Record Config : Type := mkConfig {
  cfg_spectrogramCallback : option Callback;
  cfg_numFramesPerSpectrogram : Z;
  cfg_suppressionTimeMillis : Q;
  cfg_sampleRateHz : option Z;
  cfg_fftSize : option Z;
  cfg_columnTruncateLength : option Z;
  cfg_overlapFactor : Q;
  cfg_includeRawAudio : bool
}.

(** [x || d] on an optional number: [undefined] and [0] are falsy. *)
Definition or_default (x : option Z) (d : Z) : Z :=
  match x with
  | None => d
  | Some v => if decide (v = 0) then d else v
  end.

Module Extractor.

(** The fields the constructor sets; they are not written afterwards. *)
Record Settings : Type := mkSettings {
  suppressionTimeMillis : Q;
  spectrogramCallback : Callback;
  numFrames : Z;
  sampleRateHz : Z;
  fftSize : Z;
  frameDurationMillis : Q;
  columnTruncateLength : Z;
  overlapFactor : Q;
  includeRawAudio : bool
}.

(** The object.  [analyser], [tracker] and [frameIntervalTask] are [None]
    while [undefined] or [null]; the queues and buffers, which are only
    read after [start] has set them, are plain values.  Nothing in the
    class assigns [audioContext] or [stream]. *)
Record t : Type := mk {
  settings : Settings;
  analyser : option AnalyserNode;
  freqDataQueue : list Frame;
  freqData : TypedArray.t;
  timeDataQueue : list Frame;
  timeData : TypedArray.t;
  tracker : option Tracker.t;
  frameIntervalTask : option IntervalTask;
  audioContext : option AudioContext;
  stream : option MediaStream
}.

Definition set_analyser (v : option AnalyserNode) (e : t) : t :=
  mk (settings e) v (freqDataQueue e) (freqData e) (timeDataQueue e)
     (timeData e) (tracker e) (frameIntervalTask e) (audioContext e) (stream e).
Definition set_freqDataQueue (v : list Frame) (e : t) : t :=
  mk (settings e) (analyser e) v (freqData e) (timeDataQueue e)
     (timeData e) (tracker e) (frameIntervalTask e) (audioContext e) (stream e).
Definition set_freqData (v : TypedArray.t) (e : t) : t :=
  mk (settings e) (analyser e) (freqDataQueue e) v (timeDataQueue e)
     (timeData e) (tracker e) (frameIntervalTask e) (audioContext e) (stream e).
Definition set_timeDataQueue (v : list Frame) (e : t) : t :=
  mk (settings e) (analyser e) (freqDataQueue e) (freqData e) v
     (timeData e) (tracker e) (frameIntervalTask e) (audioContext e) (stream e).
Definition set_timeData (v : TypedArray.t) (e : t) : t :=
  mk (settings e) (analyser e) (freqDataQueue e) (freqData e) (timeDataQueue e)
     v (tracker e) (frameIntervalTask e) (audioContext e) (stream e).
Definition set_tracker (v : option Tracker.t) (e : t) : t :=
  mk (settings e) (analyser e) (freqDataQueue e) (freqData e) (timeDataQueue e)
     (timeData e) v (frameIntervalTask e) (audioContext e) (stream e).
Definition set_frameIntervalTask (v : option IntervalTask) (e : t) : t :=
  mk (settings e) (analyser e) (freqDataQueue e) (freqData e) (timeDataQueue e)
     (timeData e) (tracker e) v (audioContext e) (stream e).
Definition set_audioContext (v : option AudioContext) (e : t) : t :=
  mk (settings e) (analyser e) (freqDataQueue e) (freqData e) (timeDataQueue e)
     (timeData e) (tracker e) (frameIntervalTask e) v (stream e).
Definition set_stream (v : option MediaStream) (e : t) : t :=
  mk (settings e) (analyser e) (freqDataQueue e) (freqData e) (timeDataQueue e)
     (timeData e) (tracker e) (frameIntervalTask e) (audioContext e) v.

(** [new BrowserFftFeatureExtractor(config)]. *)
Definition new (config : option Config) : result t :=
  match config with
  | None => Throw InvalidArgument
  | Some config =>
    match cfg_spectrogramCallback config with
    | None => Throw InvalidArgument
    | Some callback =>
      if decide (cfg_numFramesPerSpectrogram config <= 0) then Throw InvalidArgument
      else if Qlt_le_dec (cfg_suppressionTimeMillis config) 0 then Throw InvalidArgument
      else
        let sampleRateHz := or_default (cfg_sampleRateHz config) 44100 in
        let fftSize := or_default (cfg_fftSize config) 1024 in
        let frameDurationMillis :=
          (inject_Z fftSize / inject_Z sampleRateHz * 1000)%Q in
        let columnTruncateLength :=
          or_default (cfg_columnTruncateLength config) fftSize in
        let overlapFactor := cfg_overlapFactor config in
        if negb (Qle_bool 0 overlapFactor && negb (Qle_bool 1 overlapFactor))
        then Throw InvalidArgument
        else if decide (columnTruncateLength > fftSize) then Throw InvalidArgument
        else
          Ok (mk (mkSettings (cfg_suppressionTimeMillis config) callback
                    (cfg_numFramesPerSpectrogram config) sampleRateHz fftSize
                    frameDurationMillis columnTruncateLength overlapFactor
                    (cfg_includeRawAudio config))
                 None [] [] [] [] None None None None)
    end
  end.

Import Monad.
Open Scope monad_scope.

(** Runs a [Tracker] method on [this.tracker]. *)
Definition on_tracker {A} (m : M Tracker.t A) : M t A := fun e =>
  match tracker e with
  | None => (e, Throw TypeError)
  | Some tr => let '(tr', r) := m tr in (set_tracker (Some tr') e, r)
  end.

(** [if (b) { m }]. *)
Definition when (b : bool) (m : M t unit) : M t unit :=
  if b then m else ret tt.

(** [start(audioNode)]. *)
Definition start (audioNode : AnalyserNode) : M t unit :=
  let* this := get in
  let s := settings this in
  match frameIntervalTask this with
  | Some _ => throw IllegalState
  | None =>
    let* _ := modify (set_analyser
                (Some (mkAnalyser (fftSize s * 2) 0 (connected audioNode)))) in
    let* _ := modify (set_freqDataQueue []) in
    let* buf := lift (TypedArray.make (fftSize s)) in
    let* _ := modify (set_freqData buf) in
    let* _ := when (includeRawAudio s)
                (let* _ := modify (set_timeDataQueue []) in
                 let* tbuf := lift (TypedArray.make (fftSize s)) in
                 modify (set_timeData tbuf)) in
    let period :=
      Z.max 1 (JS.round (inject_Z (numFrames s) * (1 - overlapFactor s))) in
    let* tr := lift (Tracker.new period
                 (Some (JS.round (suppressionTimeMillis s / frameDurationMillis s)))) in
    let* _ := modify (set_tracker (Some tr)) in
    modify (set_frameIntervalTask
              (Some (mkTask (inject_Z (fftSize s) / inject_Z (sampleRateHz s) * 1000))))
  end.

(** What one run of [onAudioFrame] did.  The method itself returns nothing;
    this value records whether the scoring callback was invoked, and on
    which tensors. *)
Inductive Outcome : Type :=
  | Skipped
  | Pushed
  | Fired (freqDataTensor : Tensor) (timeDataTensor : option Tensor).

Definition is_neg_infinity (x : option JS.num) : bool :=
  match x with
  | Some JS.NegInf => true
  | _ => false
  end.

(** The body of [if (shouldFire) { ... }] in [onAudioFrame]: both queues
    are flattened, the tensors are built, the callback is invoked, and the
    tracker is suppressed when the callback asks for a rest. *)
Definition fire : M t Outcome :=
  let* this := get in
  let s := settings this in
  let* freqData := lift (flattenQueue (freqDataQueue this)) in
  let* freqDataTensor :=
    lift (getInputTensorFromFrequencyData freqData
            [1; numFrames s; columnTruncateLength s; 1]) in
  let* timeDataTensor :=
    (if includeRawAudio s then
       let* timeData := lift (flattenQueue (timeDataQueue this)) in
       let* tensor := lift (getInputTensorFromFrequencyData timeData
                              [1; numFrames s * fftSize s]) in
       ret (Some tensor)
     else ret None) in
  let shouldRest := spectrogramCallback s freqDataTensor timeDataTensor in
  let* _ := when shouldRest (on_tracker Tracker.suppress) in
  ret (Fired freqDataTensor timeDataTensor).

(** [onAudioFrame()], run when the analyser's current frequency data is
    [freqSample] and its current time-domain data is [timeSample]. *)
Definition onAudioFrame (freqSample timeSample : TypedArray.t) : M t Outcome :=
  let* this := get in
  let s := settings this in
  match analyser this with
  | None => throw TypeError
  | Some _ =>
    let* _ := modify (set_freqData (getFloatData (freqData this) freqSample)) in
    let* this := get in
    if is_neg_infinity (head (freqData this)) then ret Skipped
    else
      let* _ := modify (set_freqDataQueue
                  (freqDataQueue this
                     ++ [TypedArray.slice0 (freqData this) (columnTruncateLength s)])) in
      let* _ := when (includeRawAudio s)
                  (let* this := get in
                   let* _ := modify (set_timeData
                               (getFloatData (timeData this) timeSample)) in
                   let* this := get in
                   modify (set_timeDataQueue
                             (timeDataQueue this ++ [TypedArray.slice (timeData this)]))) in
      let* this := get in
      let* _ := when (bool_decide (Z.of_nat (length (freqDataQueue this)) > numFrames s))
                  (modify (set_freqDataQueue (tail (freqDataQueue this)))) in
      let* shouldFire := on_tracker Tracker.tick in
      if shouldFire then fire else ret Pushed
  end.

(** [stop()]. *)
Definition stop : M t unit :=
  let* this := get in
  match frameIntervalTask this with
  | None => throw IllegalState
  | Some _ =>
    let* _ := modify (set_frameIntervalTask None) in
    let* _ := (match analyser this with
               | None => throw TypeError
               | Some a => modify (set_analyser
                             (Some (mkAnalyser (node_fftSize a)
                                       (smoothingTimeConstant a) false)))
               end) in
    let* _ := (match audioContext this with
               | None => throw TypeError          (* [undefined.close()] *)
               | Some _ => modify (set_audioContext (Some (mkAudioContext true)))
               end) in
    match stream this with
    | Some (mkStream (_ :: rest)) => modify (set_stream (Some (mkStream (true :: rest))))
    | _ => ret tt
    end
  end.

End Extractor.

(** ** Score accumulation: the callback of [init] and [showMP3Result] *)

Module Session.

Inductive Diagnosis : Type :=
  | AorticRegurgitation
  | AorticStenosis
  | MitralRegurgitation
  | MitralStenosis
  | NoAbnormality.

Definition diagnoses : list Diagnosis :=
  [AorticRegurgitation; AorticStenosis; MitralRegurgitation; MitralStenosis;
   NoAbnormality].

(** The text written to the result label: no pathology found, or a probable
    pathology named by [diagnoses[i]], which is [undefined] ([None]) when
    [i] is not an index of [diagnoses]. *)
Inductive Verdict : Type :=
  | NoPathologyFound
  | ProbablePathology (name : option Diagnosis).

(** The globals [predictionCounter], [predictionSumArray] and [isProcess]. *)
Record t : Type := mk {
  predictionCounter : Z;
  predictionSumArray : TypedArray.t;
  isProcess : bool
}.

(** What [showMP3Result] displays: the number printed for each class, the
    array the maximum is taken over, the index found, and the verdict. *)
Record Report : Type := mkReport {
  shown : list JS.num;
  diagnosesArray : TypedArray.t;
  index : Z;
  verdict : Verdict
}.

(** An element read used as a number: [undefined] converts to NaN. *)
Definition to_number (x : option JS.num) : JS.num :=
  match x with
  | Some v => v
  | None => JS.NaN
  end.

(** [for (let i = 0; i != n; i++) body(i)] over a state [S]. *)
Definition for_range {S} (n : nat) (body : nat → S → S) (s : S) : S :=
  foldl (fun acc i => body i acc) s (seq 0 n).

(** The loop of [spectrogramCallback] over the class labels, from class [i]
    on and for [k] more classes.  [result.scores[i].toFixed(2)] is
    evaluated before the sum is updated: a missing score throws a TypeError
    and ends the loop.  A write past the end of a typed array is ignored,
    as list insertion is. *)
Fixpoint record_from (i k : nat) (scores : list JS.num) (sums : TypedArray.t)
    : TypedArray.t * result unit :=
  match k with
  | O => (sums, Ok tt)
  | S k' =>
      match scores !! i with
      | None => (sums, Throw TypeError)
      | Some score =>
          record_from (S i) k' scores
            (<[i := JS.add (to_number (sums !! i)) score]> sums)
      end
  end.

(** The bookkeeping of [spectrogramCallback] for the scores of one firing,
    with [n] class labels: the counter is incremented, then the loop runs,
    and [false] is returned. *)
Definition record (n : nat) (scores : list JS.num) : M t bool := fun s =>
  let counter := predictionCounter s + 1 in
  let '(sums, r) := record_from 0 n scores (predictionSumArray s) in
  (mk counter sums (isProcess s), let? _ := r in Ok false).

(** [showMP3Result()], with [n] children of the label container. *)
Definition showMP3Result (n : nat) : M t Report := fun s =>
  let t_of i :=
    JS.toFixed3 (JS.div (to_number (predictionSumArray s !! i))
                        (JS.of_Z (predictionCounter s))) in
  let diagnosesArray :=
    for_range n (fun i d => <[i := t_of i]> d) (replicate 5 JS.zero) in
  let i := JS.indexOf diagnosesArray (JS.max_of diagnosesArray) in
  let verdict :=
    if decide (i = 4) then NoPathologyFound
    else ProbablePathology
           (if decide (0 <= i) then diagnoses !! Z.to_nat i else None) in
  let sums := for_range n (fun i sums => <[i := JS.zero]> sums) (predictionSumArray s) in
  (mk 0 sums false,
   Ok (mkReport (map t_of (seq 0 n)) diagnosesArray i verdict)).

(** The globals as [init] leaves them. *)
Definition init : t := mk 0 (replicate 5 JS.zero) false.

End Session.

(** ** normalize *)

(** IEEE 754 binary32, the element type of a float32 tensor and of a
    [Float32Array]: 24 bits of precision, round to nearest, ties to even. *)
Module F32.
Import SpecFloat.

Abbreviation t := spec_float (only parsing).

Definition prec : Z := 24.
Definition emax : Z := 128.

Definition zero : t := S754_zero false.

Definition add : t → t → t := SFadd prec emax.
Definition sub : t → t → t := SFsub prec emax.
Definition mul : t → t → t := SFmul prec emax.
Definition div : t → t → t := SFdiv prec emax.

(** An integer stored into a float32 tensor. *)
Definition of_Z (n : Z) : t := binary_normalize prec emax n 0 false.





End F32.

(** The tensor operations of TensorFlow.js that [normalize] composes, on
    the values of a float32 tensor.  The library is not part of the
    repository; the operations are those of its float32 kernels as the CPU
    backend computes them.  An elementwise operation is the binary32
    operation, a scalar operand being broadcast over the tensor.  A sum is
    accumulated from 0 in a double, element after element, and stored as a
    float32.  The mean divides every element by the count, then sums. *)
Module Tf.

Definition sub (x : list F32.t) (s : F32.t) : list F32.t :=
  map (fun v => F32.sub v s) x.
Definition div (x : list F32.t) (s : F32.t) : list F32.t :=
  map (fun v => F32.div v s) x.


End Tf.


(** ** AudioPlayerControls.changeVolume *)

Module Player.

(** An infinity of the given sign times the finite [p]. *)
Definition inf_times (positive : bool) (p : Q) : JS.num :=
  if Qeq_bool p 0 then JS.NaN
  else JS.signed_inf (if positive then JS.nonneg p else negb (JS.nonneg p)).

(** [a * b]: an infinity times zero is NaN. *)
Definition mul (a b : JS.num) : JS.num :=
  match a, b with
  | JS.NaN, _ | _, JS.NaN => JS.NaN
  | JS.Fin p, JS.Fin q => JS.Fin (p * q)
  | JS.Fin p, JS.PosInf | JS.PosInf, JS.Fin p => inf_times true p
  | JS.Fin p, JS.NegInf | JS.NegInf, JS.Fin p => inf_times false p
  | JS.PosInf, JS.PosInf | JS.NegInf, JS.NegInf => JS.PosInf
  | JS.PosInf, JS.NegInf | JS.NegInf, JS.PosInf => JS.NegInf
  end.

(** The slider element: its [value] and [max] attributes, which are
    strings. *)
Record Slider : Type := mkSlider {
  value : String.string;
  max : String.string
}.

(** [changeVolume(element)], on the value of [this.volNode.gain].  The
    built-in [parseInt] is a parameter. *)
Definition changeVolume (parseInt : String.string → JS.num) (element : Slider)
  : M JS.num unit := fun _ =>
  let fraction := JS.div (parseInt (value element)) (parseInt (max element)) in
  (mul fraction fraction, Ok tt).

End Player.

(** * Vocabulary of the properties

    Sequences of calls and of ticks, and the quantities the specification
    speaks of, defined on top of the program above. *)

Open Scope Z_scope.

(** ** Tracker *)

Module TrackerSpec.

(** A call made on a tracker. *)
Inductive Call : Type :=
  | Tick
  | Suppress.

#[global] Instance Call_eq_dec : EqDecision Call.
Proof. solve_decision. Defined.

Definition call (c : Call) (tr : Tracker.t) : Tracker.t :=
  match c with
  | Tick => fst (Tracker.tick tr)
  | Suppress => fst (Tracker.suppress tr)
  end.

(** The tracker after a sequence of calls. *)
Definition exec (calls : list Call) (tr : Tracker.t) : Tracker.t :=
  foldl (fun tr c => call c tr) tr calls.

(** What each [tick()] of a sequence of calls returned, in order. *)
Fixpoint fired (calls : list Call) (tr : Tracker.t) : list bool :=
  match calls with
  | [] => []
  | Tick :: rest =>
      let '(tr', r) := Tracker.tick tr in
      match r with
      | Ok b => b :: fired rest tr'
      | Throw _ => fired rest tr'
      end
  | Suppress :: rest => fired rest (fst (Tracker.suppress tr))
  end.

(** The number of [tick()] calls in a sequence. *)
Definition ticks (calls : list Call) : Z :=
  Z.of_nat (length (filter (fun c => c = Tick) calls)).

(** The firing rule in the words of the specification, for the [tick()]
    that follows the calls [before]: its number is a multiple of [P], and
    either no [suppress()] was made, or the ticks made after the last
    [suppress()], this one included, are more than [S]. *)
Definition should_fire (P S : Z) (before : list Call) : Prop :=
  (P | ticks before + 1)
  ∧ (Suppress ∉ before
     ∨ ∃ pre post, before = pre ++ Suppress :: post
                   ∧ (Suppress ∉ post) ∧ ticks post + 1 > S).

End TrackerSpec.

(** ** The extractor's sampling tick *)

Module ExtractorSpec.
Import Extractor.

(** The buffer [this.freqData] once the tick has read the analyser. *)
Definition sample_read (e : Extractor.t) (freqSample : TypedArray.t) : TypedArray.t :=
  getFloatData (freqData e) freqSample.

(** The test [this.freqData[0] === -Infinity] on the sample read. *)
Definition silent (e : Extractor.t) (freqSample : TypedArray.t) : bool :=
  is_neg_infinity (head (sample_read e freqSample)).

(** The frame an audible tick pushes. *)
Definition frame_of (e : Extractor.t) (freqSample : TypedArray.t) : Frame :=
  TypedArray.slice0 (sample_read e freqSample) (columnTruncateLength (settings e)).

(** A push followed by the eviction test. *)
Definition push_shift (capacity : Z) (queue : list Frame) (f : Frame) : list Frame :=
  if bool_decide (Z.of_nat (length (queue ++ [f])) > capacity)
  then tail (queue ++ [f]) else queue ++ [f].

(** The extractor when an audible tick reaches [this.tracker.tick()]. *)
Definition after_push (freqSample timeSample : TypedArray.t) (e : Extractor.t)
  : Extractor.t :=
  let e1 := set_freqData (sample_read e freqSample) e in
  let e2 := set_freqDataQueue (freqDataQueue e ++ [frame_of e freqSample]) e1 in
  let e3 :=
    if includeRawAudio (settings e) then
      set_timeDataQueue
        (timeDataQueue e ++ [getFloatData (timeData e) timeSample])
        (set_timeData (getFloatData (timeData e) timeSample) e2)
    else e2 in
  set_freqDataQueue
    (push_shift (numFrames (settings e)) (freqDataQueue e) (frame_of e freqSample)) e3.

(** The timer: one [onAudioFrame] per sample, whatever the previous one
    did; a tick that throws leaves its writes behind. *)
Definition run (samples : list (TypedArray.t * TypedArray.t)) (e : Extractor.t)
  : Extractor.t :=
  foldl (fun e s => fst (onAudioFrame s.1 s.2 e)) e samples.

(** What each tick of a run did. *)
Fixpoint outcomes (samples : list (TypedArray.t * TypedArray.t)) (e : Extractor.t)
  : list (result Outcome) :=
  match samples with
  | [] => []
  | s :: rest =>
      let '(e', r) := onAudioFrame s.1 s.2 e in r :: outcomes rest e'
  end.

(** The frames a run pushes, in order: one per audible sample, cut from the
    buffer the sample was read into. *)
Fixpoint pushed_frames (columnTruncateLength : Z) (buf : TypedArray.t)
    (samples : list (TypedArray.t * TypedArray.t)) : list Frame :=
  match samples with
  | [] => []
  | s :: rest =>
      let buf' := getFloatData buf s.1 in
      if is_neg_infinity (head buf') then pushed_frames columnTruncateLength buf' rest
      else TypedArray.slice0 buf' columnTruncateLength
             :: pushed_frames columnTruncateLength buf' rest
  end.

(** Whether a tick invoked the scoring callback. *)
Definition is_fired (r : result Outcome) : bool :=
  match r with
  | Ok (Fired _ _) => true
  | _ => false
  end.

End ExtractorSpec.

(** The scenario of the specification: 40 frames per spectrogram and an
    overlap of one half, hence a period of 20; frames of two bins; a
    callback that never asks for a rest, like the one [init] installs. *)
Module Scenario.

Definition never_rest : Callback := fun _ _ => false.

Definition config : Config :=
  mkConfig (Some never_rest) 40 0 (Some 44100) (Some 2) (Some 2) (1 # 2) false.

Definition node : AnalyserNode := mkAnalyser 2048 (8 # 10) true.

(** An audible sample: two finite magnitudes, and no time-domain data. *)
Definition tone : TypedArray.t * TypedArray.t := ([JS.Fin 1; JS.Fin 2], []).

(** The configuration object of [init], for a model whose input has
    [numFrames] frames of [width] bins. *)
Definition init_config (numFrames width : Z) : Config :=
  mkConfig (Some never_rest) numFrames 0 (Some 44100) None (Some width) (1 # 2) false.

End Scenario.

(** A configuration with its omitted parameters written out, in the words
    of the specification: 44100 for [sampleRateHz], 1024 for [fftSize], and
    the FFT size for [columnTruncateLength]. *)
Definition with_defaults (cfg : Config) : Config :=
  let fft := default 1024 (cfg_fftSize cfg) in
  mkConfig (cfg_spectrogramCallback cfg) (cfg_numFramesPerSpectrogram cfg)
    (cfg_suppressionTimeMillis cfg)
    (Some (default 44100 (cfg_sampleRateHz cfg)))
    (Some fft)
    (Some (default fft (cfg_columnTruncateLength cfg)))
    (cfg_overlapFactor cfg) (cfg_includeRawAudio cfg).

(** ** normalize *)

Module NormalizerSpec.






End NormalizerSpec.

(** ** The state of a streaming extractor *)

Module StreamingSpec.
Import Extractor ExtractorSpec.

(** What [start] establishes and every tick keeps, on an extractor whose
    [columnTruncateLength] is positive: the analyser and the tracker are
    set, the buffers have the FFT size, the queued frames have the
    truncated width, and the frequency queue is within its capacity. *)
Definition streaming (e : Extractor.t) : Prop :=
  let s := settings e in
  is_Some (analyser e)
  ∧ is_Some (tracker e)
  ∧ 0 < numFrames s
  ∧ 0 < columnTruncateLength s <= fftSize s
  ∧ Z.of_nat (length (freqData e)) = fftSize s
  ∧ Forall (fun f : Frame => Z.of_nat (length f) = columnTruncateLength s)
      (freqDataQueue e)
  ∧ Z.of_nat (length (freqDataQueue e)) <= numFrames s
  ∧ (includeRawAudio s = true →
     Z.of_nat (length (timeData e)) = fftSize s
     ∧ Forall (fun f : Frame => Z.of_nat (length f) = fftSize s) (timeDataQueue e)).

(** The number of audible ticks among the samples of a run that starts
    with the buffer [buf]. *)
Definition audible_ticks (buf : TypedArray.t)
    (samples : list (TypedArray.t * TypedArray.t)) : nat :=
  length (pushed_frames 0 buf samples).

(** The tensor an extractor fires on when its frequency queue is [queue]:
    the frames in order, behind as many zeros as the shape leaves. *)
Definition padded_tensor (numFrames columnTruncateLength : Z) (queue : list Frame)
  : Tensor :=
  mkTensor
    (replicate (Z.to_nat (numFrames * columnTruncateLength) - length (concat queue))
       JS.zero ++ concat queue)
    [1; numFrames; columnTruncateLength; 1].

(** Whether the next [tick()] of a tracker fires, and the tracker it
    leaves. *)
Definition tick_fires (tr : Tracker.t) : bool :=
  match snd (Tracker.tick tr) with
  | Ok b => b
  | Throw _ => false
  end.

Definition ticked (tr : Tracker.t) : Tracker.t := fst (Tracker.tick tr).

Definition suppressed (tr : Tracker.t) : Tracker.t := fst (Tracker.suppress tr).

(** The period and the suppression time [start] gives the tracker, in
    exact arithmetic. *)
Definition period_of (s : Settings) : Z :=
  Z.max 1 (JS.round (inject_Z (numFrames s) * (1 - overlapFactor s))).

Definition suppression_ticks (s : Settings) : Z :=
  JS.round (suppressionTimeMillis s / frameDurationMillis s).

(** The number of ticks of a run that invoked the scoring callback. *)
Definition invocations (samples : list (TypedArray.t * TypedArray.t))
    (e : Extractor.t) : nat :=
  length (filter (fun r => is_fired r = true) (outcomes samples e)).

End StreamingSpec.

(** ** What the constructor asks of a configuration *)

(** The conditions under which [new BrowserFftFeatureExtractor(config)]
    builds an extractor: a callback, a positive number of frames, a
    suppression time that is not negative, an overlap factor from 0 up to
    but not including 1, and a [columnTruncateLength] that, once defaulted,
    does not exceed the defaulted FFT size. *)
Definition accepted (cfg : Config) : Prop :=
  is_Some (cfg_spectrogramCallback cfg)
  ∧ 0 < cfg_numFramesPerSpectrogram cfg
  ∧ (0 <= cfg_suppressionTimeMillis cfg)%Q
  ∧ (0 <= cfg_overlapFactor cfg)%Q
  ∧ (cfg_overlapFactor cfg < 1)%Q
  ∧ or_default (cfg_columnTruncateLength cfg) (or_default (cfg_fftSize cfg) 1024)
    <= or_default (cfg_fftSize cfg) 1024.

(** * Properties *)

(** ** Tracker *)

Section tracker_properties.
Import TrackerSpec.

Lemma ticks_app (xs ys : list Call) : ticks (xs ++ ys) = ticks xs + ticks ys.
Proof. unfold ticks. rewrite filter_app, length_app. lia. Qed.

Lemma ticks_snoc_Tick (xs : list Call) : ticks (xs ++ [Tick]) = ticks xs + 1.
Proof. rewrite ticks_app. reflexivity. Qed.

Lemma ticks_snoc_Suppress (xs : list Call) : ticks (xs ++ [Suppress]) = ticks xs.
Proof. rewrite ticks_app. unfold ticks at 2. simpl. lia. Qed.

Lemma ticks_cons_Suppress (xs : list Call) : ticks (Suppress :: xs) = ticks xs.
Proof. reflexivity. Qed.

Lemma ticks_nonneg (xs : list Call) : 0 <= ticks xs.
Proof. unfold ticks. lia. Qed.

Lemma exec_snoc (calls : list Call) (c : Call) (tr : Tracker.t) :
  exec (calls ++ [c]) tr = call c (exec calls tr).
Proof. unfold exec. by rewrite foldl_app. Qed.

(** The period and the suppression time are never written. *)
Lemma exec_constants (calls : list Call) (tr : Tracker.t) :
  Tracker.period (exec calls tr) = Tracker.period tr
  ∧ Tracker.suppressionTime (exec calls tr) = Tracker.suppressionTime tr.
Proof.
  induction calls as [|c calls IH] using rev_ind; [done|].
  rewrite exec_snoc. destruct IH as [IHp IHs]. by destruct c.
Qed.

(** The counter counts the ticks. *)
Lemma exec_counter (calls : list Call) (tr : Tracker.t) :
  Tracker.counter (exec calls tr) = Tracker.counter tr + ticks calls.
Proof.
  induction calls as [|c calls IH] using rev_ind.
  - unfold ticks. simpl. lia.
  - rewrite exec_snoc. destruct c; simpl.
    + rewrite IH, ticks_snoc_Tick. lia.
    + rewrite IH, ticks_snoc_Suppress. lia.
Qed.

(** The onset is unset until the first [suppress()], and afterwards holds
    the number of ticks made before the last one. *)
Lemma exec_onset (calls : list Call) (tr : Tracker.t) :
  Tracker.suppressionOnset tr = None →
  match Tracker.suppressionOnset (exec calls tr) with
  | None => Suppress ∉ calls
  | Some onset =>
      ∃ pre post, calls = pre ++ Suppress :: post ∧ (Suppress ∉ post)
                  ∧ onset = Tracker.counter tr + ticks pre
  end.
Proof.
  intros Hnone. induction calls as [|c calls IH] using rev_ind.
  - simpl. rewrite Hnone. apply not_elem_of_nil.
  - rewrite exec_snoc. destruct c; simpl.
    + destruct (Tracker.suppressionOnset (exec calls tr)) as [onset|].
      * destruct IH as (pre & post & -> & Hpost & ->).
        exists pre, (post ++ [Tick]). split_and!; [by rewrite <-app_assoc| |done].
        rewrite elem_of_app, list_elem_of_singleton. by intros [?|?].
      * rewrite elem_of_app, list_elem_of_singleton. by intros [?|?].
    + exists calls, []. split_and!; [done|apply not_elem_of_nil|].
      apply exec_counter.
Qed.

(** A decomposition at the last [suppress()] is unique. *)
Lemma last_suppress_unique (pre post pre' post' : list Call) :
  pre ++ Suppress :: post = pre' ++ Suppress :: post' →
  Suppress ∉ post → Suppress ∉ post' → pre = pre' ∧ post = post'.
Proof.
  revert pre'. induction pre as [|c pre IH]; intros [|c' pre'] Heq Hp Hp'; simplify_eq/=.
  - done.
  - exfalso. apply Hp. rewrite elem_of_app, elem_of_cons. auto.
  - exfalso. apply Hp'. rewrite elem_of_app, elem_of_cons. auto.
  - destruct (IH pre') as [-> ->]; done.
Qed.

Lemma rem_is_zero_spec (a b : Z) :
  0 <= a → 0 < b → Tracker.rem_is_zero a b = true ↔ (b | a).
Proof.
  intros Ha Hb. unfold Tracker.rem_is_zero.
  destruct (decide (b = 0)) as [->|_]; [lia|].
  rewrite bool_decide_eq_true, Z.rem_mod_nonneg by lia.
  rewrite Z.mod_divide by lia. done.
Qed.

(** C2.  For every period [P > 0] and suppression duration [S >= 0], and
    after every sequence of [tick()] and [suppress()] calls on a freshly
    built tracker, the next [tick()] returns a boolean, and it returns true
    exactly when the count of ticks, this one included, is a multiple of [P]
    and either there was no [suppress()] or the ticks elapsed since the last
    one are more than [S].  With [P = 3], [S = 2] and a [suppress()] after
    tick 3, ticks 4 and 5 do not fire and tick 6 fires. *)
Theorem tracker_tick_fires_exactly :
  (∀ (P S : Z) (before : list Call) (tr : Tracker.t),
     P > 0 → S >= 0 → Tracker.new P (Some S) = Ok tr →
     ∃ b, snd (Tracker.tick (exec before tr)) = Ok b
          ∧ (b = true ↔ should_fire P S before))
  ∧ (∃ tr, Tracker.new 3 (Some 2) = Ok tr
           ∧ fired [Tick; Tick; Tick; Suppress; Tick; Tick; Tick] tr
             = [false; false; true; false; false; true]).
Proof.
  split; [|by eexists].
  intros P S before tr HP HS Hnew.
  unfold Tracker.new in Hnew. rewrite decide_True in Hnew by done.
  injection Hnew as <-.
  set (tr := Tracker.mk P S 0 None).
  eexists. split; [reflexivity|].
  pose proof (exec_constants before tr) as [Hp Hs].
  pose proof (exec_counter before tr) as Hc.
  pose proof (exec_onset before tr eq_refl) as Ho.
  pose proof (ticks_nonneg before) as Hn.
  simpl in Hp, Hs, Hc, Ho |- *. rewrite Hp, Hs, Hc, Z.add_0_l.
  rewrite andb_true_iff, rem_is_zero_spec by lia.
  unfold should_fire.
  destruct (Tracker.suppressionOnset (exec before tr)) as [onset|].
  - destruct Ho as (pre & post & Hsplit & Hpost & ->).
    rewrite bool_decide_eq_true, Z.add_0_l.
    assert (Hticks : ticks before = ticks pre + ticks post).
    { by rewrite Hsplit, ticks_app, ticks_cons_Suppress. }
    split.
    + intros [Hdiv Hgt]. split; [done|]. right. exists pre, post.
      split_and!; [done..|lia].
    + intros [Hdiv [Hnot|(pre' & post' & Hsplit' & Hpost' & Hgt)]].
      * exfalso. apply Hnot. rewrite Hsplit, elem_of_app, elem_of_cons. auto.
      * split; [done|].
        destruct (last_suppress_unique pre post pre' post') as [-> ->];
          [congruence|done..|lia].
  - split; [intros [Hdiv _]; auto|].
    intros [Hdiv _]. done.
Qed.

(** The instance of C2 for period 3 and suppression 2: after three ticks,
    a [suppress()] and two more ticks, the sixth tick fires. *)
Lemma tracker_tick_fires_exactly_witness :
  3 > 0 ∧ 2 >= 0
  ∧ ∃ b, snd (Tracker.tick
                (exec [Tick; Tick; Tick; Suppress; Tick; Tick]
                   (Tracker.mk 3 2 0 None))) = Ok b
         ∧ (b = true ↔ should_fire 3 2 [Tick; Tick; Tick; Suppress; Tick; Tick]).
Proof.
  split; [lia|]. split; [lia|].
  apply (proj1 tracker_tick_fires_exactly 3 2); [lia|lia|reflexivity].
Defined.

(** C3, as the code has it.  Building a tracker fails, with an
    invalid-argument error, exactly when the period is not positive; the
    suppression duration is not examined, so every period above zero gives
    a tracker, whatever the duration. *)
Theorem tracker_new_checks_period_only (P : Z) (S : option Z) :
  (Tracker.new P S = Throw InvalidArgument ↔ P <= 0)
  ∧ ((∃ tr, Tracker.new P S = Ok tr) ↔ P > 0).
Proof.
  unfold Tracker.new. destruct (decide (P > 0)) as [Hpos|Hneg].
  - split; split; try done; try lia. intros _. by eexists.
  - split; split; try done; try lia. by intros [tr ?].
Qed.

(** C3 as stated fails: a negative suppression duration is accepted. *)
Lemma tracker_new_negative_suppression :
  Tracker.new 3 (Some (-2)) = Ok (Tracker.mk 3 (-2) 0 None).
Proof. reflexivity. Qed.

End tracker_properties.

(** ** Flattening and tensor construction *)

Section typed_arrays.

(** Writing over a middle segment of the same length. *)
Lemma set_middle (pre mid post src : TypedArray.t) :
  length mid = length src →
  TypedArray.set (pre ++ mid ++ post) src (Z.of_nat (length pre))
  = Ok (pre ++ src ++ post).
Proof.
  intros Hlen. unfold TypedArray.set.
  rewrite decide_False by (rewrite !length_app; intros [?|?]; lia).
  rewrite Nat2Z.id, take_app_length. do 3 f_equal.
  by rewrite drop_app_add, drop_app_length'.
Qed.

Lemma replicate_add {A} (n m : nat) (x : A) :
  replicate (n + m) x = replicate n x ++ replicate m x.
Proof. induction n as [|n IH]; simpl; [done|by rewrite IH]. Qed.

(** The loop of [flattenQueue], started at frame [i] with the frames before
    it already copied. *)
Lemma set_each_concat (W : nat) (queue : list Frame) :
  Forall (fun f => length f = W) queue →
  ∀ (i : nat) (pre : TypedArray.t), length pre = (i * W)%nat →
    set_each (Z.of_nat W) (Z.of_nat i) queue
      (pre ++ replicate (length queue * W) JS.zero)
    = Ok (pre ++ concat queue).
Proof.
  induction 1 as [|data rest Hdata _ IH]; intros i pre Hpre; simpl.
  - done.
  - rewrite replicate_add.
    replace (Z.of_nat i * Z.of_nat W) with (Z.of_nat (length pre)) by lia.
    rewrite set_middle by (by rewrite length_replicate). simpl.
    replace (Z.of_nat i + 1) with (Z.of_nat (S i)) by lia.
    rewrite (app_assoc pre data), IH, <-app_assoc; [done|].
    rewrite length_app. lia.
Qed.

Lemma length_concat_uniform (W : nat) (queue : list Frame) :
  Forall (fun f => length f = W) queue →
  length (concat queue) = (length queue * W)%nat.
Proof.
  induction 1 as [|data rest Hdata _ IH]; simpl; [done|].
  rewrite length_app. lia.
Qed.

Lemma flattenQueue_uniform (W : nat) (queue : list Frame) :
  queue ≠ [] → Forall (fun f => length f = W) queue →
  flattenQueue queue = Ok (concat queue).
Proof.
  intros Hne Hall. destruct queue as [|first rest]; [done|].
  unfold flattenQueue, TypedArray.make.
  rewrite decide_False by lia.
  assert (length first = W) as -> by (by inversion Hall).
  replace (Z.to_nat (Z.of_nat (length (first :: rest)) * Z.of_nat W))
    with (length (first :: rest) * W)%nat by lia.
  cbn [result_bind].
  apply (set_each_concat W (first :: rest) Hall 0 []). done.
Qed.

(** The buffer is copied to the end of a zero-filled array. *)
Lemma getInputTensor_right_aligned (freqData : TypedArray.t) (shape : list Z) :
  Z.of_nat (length freqData) <= sizeFromShape shape →
  getInputTensorFromFrequencyData freqData shape
  = Ok (mkTensor
          (replicate (Z.to_nat (sizeFromShape shape) - length freqData) JS.zero
             ++ freqData)
          shape).
Proof.
  intros Hle. unfold getInputTensorFromFrequencyData, TypedArray.make.
  rewrite decide_False by lia. cbn [result_bind].
  rewrite length_replicate.
  set (T := Z.to_nat (sizeFromShape shape)).
  set (L := length freqData).
  replace (replicate T JS.zero)
    with (replicate (T - L) JS.zero ++ replicate L JS.zero ++ []).
  2:{ rewrite app_nil_r, <-replicate_add. f_equal. lia. }
  replace (Z.of_nat T - Z.of_nat L)
    with (Z.of_nat (length (replicate (T - L) JS.zero)))
    by (rewrite length_replicate; lia).
  rewrite set_middle by (by rewrite length_replicate).
  cbn [result_bind]. by rewrite app_nil_r.
Qed.

(** C7.  Flattening a queue of [capacity] frames, each of width [W], gives
    the frames' values concatenated in queue order, which is push order,
    [capacity * W] values in all.  The tensor built from a buffer of length
    [L] for a shape of size [T >= L] holds [T - L] zeros followed by the
    buffer. *)
Theorem flatten_then_right_align :
  (∀ (queue : list Frame) (capacity W : nat),
     (0 < capacity)%nat → length queue = capacity →
     Forall (fun f => length f = W) queue →
     flattenQueue queue = Ok (concat queue)
     ∧ length (concat queue) = (capacity * W)%nat)
  ∧ (∀ (freqData : TypedArray.t) (dims : list Z) (T L : nat),
       Z.of_nat T = sizeFromShape dims → L = length freqData → (L <= T)%nat →
       ∃ tensor, getInputTensorFromFrequencyData freqData dims = Ok tensor
                 ∧ shape tensor = dims
                 ∧ length (values tensor) = T
                 ∧ take (T - L) (values tensor) = replicate (T - L) JS.zero
                 ∧ drop (T - L) (values tensor) = freqData).
Proof.
  split.
  - intros queue capacity W Hpos Hlen Hall. split.
    + apply (flattenQueue_uniform W); [|done]. intros ->. simpl in Hlen. lia.
    + rewrite <-Hlen. by apply length_concat_uniform.
  - intros freqData dims T L HT HL Hle. eexists. split.
    { apply getInputTensor_right_aligned. lia. }
    cbn [shape values]. rewrite <-HT, Nat2Z.id, <-HL.
    split_and!.
    + done.
    + rewrite length_app, length_replicate. lia.
    + rewrite take_app_length'; [done|by rewrite length_replicate].
    + rewrite drop_app_length'; [done|by rewrite length_replicate].
Qed.

(** C7 on two frames of width 2, and on a buffer of 2 values for a shape of
    size 4. *)
Lemma flatten_then_right_align_witness :
  (flattenQueue [[JS.Fin 1; JS.Fin 2]; [JS.Fin 3; JS.Fin 4]]
   = Ok (concat [[JS.Fin 1; JS.Fin 2]; [JS.Fin 3; JS.Fin 4]])
   ∧ length (concat [[JS.Fin 1; JS.Fin 2]; [JS.Fin 3; JS.Fin 4]]) = (2 * 2)%nat)
  ∧ ∃ tensor,
      getInputTensorFromFrequencyData [JS.Fin 5; JS.Fin 6] [1; 2; 2; 1] = Ok tensor
      ∧ shape tensor = [1; 2; 2; 1]
      ∧ length (values tensor) = 4%nat
      ∧ take (4 - 2) (values tensor) = replicate (4 - 2) JS.zero
      ∧ drop (4 - 2) (values tensor) = [JS.Fin 5; JS.Fin 6].
Proof.
  split.
  - apply (proj1 flatten_then_right_align _ 2%nat 2%nat); [lia|reflexivity|].
    repeat constructor.
  - apply (proj2 flatten_then_right_align _ _ 4%nat 2%nat); [reflexivity|reflexivity|lia].
Defined.

End typed_arrays.

(** ** The extractor's sampling tick *)

Section extractor_properties.
Import Extractor ExtractorSpec.

Ltac unfold_monad :=
  unfold Monad.bind, Monad.get, Monad.modify, Monad.ret, Monad.throw,
    Monad.lift, when in *.

Lemma set_tracker_same (e : Extractor.t) : set_tracker (tracker e) e = e.
Proof. by destruct e. Qed.

(** A tracker method writes [this.tracker] only. *)
Lemma on_tracker_state {A} (m : M Tracker.t A) (e : Extractor.t) :
  ∃ tr, fst (on_tracker m e) = set_tracker tr e.
Proof.
  unfold on_tracker. destruct (tracker e) as [tr|] eqn:Htr.
  - destruct (m tr) as [tr' r]. by exists (Some tr').
  - exists None. by rewrite <-Htr, set_tracker_same.
Qed.

Lemma set_tracker_twice (a b : option Tracker.t) (e : Extractor.t) :
  set_tracker a (set_tracker b e) = set_tracker a e.
Proof. done. Qed.

(** Firing writes [this.tracker] only. *)
Lemma fire_state (e : Extractor.t) : ∃ tr, fst (fire e) = set_tracker tr e.
Proof.
  assert (Hid : ∃ tr, e = set_tracker tr e)
    by (exists (tracker e); by rewrite set_tracker_same).
  unfold fire. unfold_monad.
  destruct (flattenQueue _); simpl; [|done].
  destruct (getInputTensorFromFrequencyData _ _); simpl; [|done].
  destruct (includeRawAudio _); simpl.
  - destruct (flattenQueue _); simpl; [|done].
    destruct (getInputTensorFromFrequencyData _ _); simpl; [|done].
    destruct (spectrogramCallback _ _ _); simpl; [|done].
    destruct (on_tracker_state Tracker.suppress e) as [tr Htr].
    exists tr. rewrite <-Htr. by destruct (on_tracker _ e) as [? []].
  - destruct (spectrogramCallback _ _ _); simpl; [|done].
    destruct (on_tracker_state Tracker.suppress e) as [tr Htr].
    exists tr. rewrite <-Htr. by destruct (on_tracker _ e) as [? []].
Qed.

(** A silent tick stops after the read. *)
Lemma onAudioFrame_silent (fs ts : TypedArray.t) (e : Extractor.t) :
  is_Some (analyser e) → silent e fs = true →
  onAudioFrame fs ts e = (set_freqData (sample_read e fs) e, Ok Skipped).
Proof.
  intros [a Ha] Hsilent. unfold onAudioFrame. unfold_monad.
  rewrite Ha. simpl. unfold silent, sample_read in Hsilent. by rewrite Hsilent.
Qed.

(** An audible tick pushes, evicts, and goes on to the tracker. *)
Lemma onAudioFrame_audible (fs ts : TypedArray.t) (e : Extractor.t) :
  is_Some (analyser e) → silent e fs = false →
  onAudioFrame fs ts e
  = Monad.bind (on_tracker Tracker.tick)
      (fun shouldFire : bool => if shouldFire then fire else Monad.ret Pushed)
      (after_push fs ts e).
Proof.
  intros [a Ha] Hsilent. unfold onAudioFrame, after_push, push_shift.
  unfold silent, sample_read in Hsilent. unfold_monad.
  rewrite Ha. simpl. rewrite Hsilent. unfold frame_of, sample_read, TypedArray.slice.
  destruct (includeRawAudio _); simpl; by destruct (bool_decide _).
Qed.

(** The fields a tick leaves alone, and the queue it leaves behind. *)
Lemma onAudioFrame_state (fs ts : TypedArray.t) (e : Extractor.t) :
  is_Some (analyser e) →
  let e' := fst (onAudioFrame fs ts e) in
  settings e' = settings e
  ∧ analyser e' = analyser e
  ∧ frameIntervalTask e' = frameIntervalTask e
  ∧ freqData e' = sample_read e fs
  ∧ freqDataQueue e'
    = if silent e fs then freqDataQueue e
      else push_shift (numFrames (settings e)) (freqDataQueue e) (frame_of e fs).
Proof.
  intros Ha. destruct (silent e fs) eqn:Hsilent.
  - by rewrite onAudioFrame_silent.
  - rewrite onAudioFrame_audible by done. unfold Monad.bind.
    destruct (on_tracker_state Tracker.tick (after_push fs ts e)) as [tr Htr].
    destruct (on_tracker Tracker.tick (after_push fs ts e)) as [e5 [[]|]];
      simpl in Htr; subst e5.
    + destruct (fire_state (set_tracker tr (after_push fs ts e))) as [tr' ->].
      unfold after_push. by destruct (includeRawAudio _).
    + unfold after_push. by destruct (includeRawAudio _).
    + unfold after_push. by destruct (includeRawAudio _).
Qed.


Lemma after_push_fields (fs ts : TypedArray.t) (e : Extractor.t) :
  settings (after_push fs ts e) = settings e
  ∧ analyser (after_push fs ts e) = analyser e
  ∧ tracker (after_push fs ts e) = tracker e
  ∧ freqDataQueue (after_push fs ts e)
    = push_shift (numFrames (settings e)) (freqDataQueue e) (frame_of e fs).
Proof. unfold after_push. by destruct (includeRawAudio _). Qed.

(** What the constructor guarantees. *)
Lemma new_ok (cfg : Config) (e : Extractor.t) :
  Extractor.new (Some cfg) = Ok e →
  numFrames (settings e) = cfg_numFramesPerSpectrogram cfg
  ∧ 0 < numFrames (settings e)
  ∧ sampleRateHz (settings e) = or_default (cfg_sampleRateHz cfg) 44100
  ∧ fftSize (settings e) = or_default (cfg_fftSize cfg) 1024
  ∧ columnTruncateLength (settings e)
    = or_default (cfg_columnTruncateLength cfg) (fftSize (settings e))
  ∧ columnTruncateLength (settings e) <= fftSize (settings e)
  ∧ includeRawAudio (settings e) = cfg_includeRawAudio cfg
  ∧ analyser e = None ∧ tracker e = None ∧ frameIntervalTask e = None
  ∧ audioContext e = None ∧ stream e = None.
Proof.
  unfold Extractor.new. intros H.
  destruct (cfg_spectrogramCallback cfg); [|done].
  destruct (decide _); [done|].
  destruct (Qlt_le_dec _ _); [done|].
  destruct (negb _); [done|].
  destruct (decide _); [done|].
  injection H as <-. simpl. split_and!; try done; lia.
Qed.

(** What a successful [start] leaves. *)
Lemma start_ok (node : AnalyserNode) (e e0 : Extractor.t) :
  Extractor.start node e = (e0, Ok tt) →
  settings e0 = settings e
  ∧ is_Some (analyser e0)
  ∧ freqDataQueue e0 = []
  ∧ is_Some (tracker e0)
  ∧ is_Some (frameIntervalTask e0)
  ∧ audioContext e0 = audioContext e
  ∧ stream e0 = stream e.
Proof.
  unfold Extractor.start. unfold_monad. intros H.
  destruct (frameIntervalTask e); [done|]. simpl in H.
  destruct (TypedArray.make _) as [buf|]; simpl in H; [|done].
  destruct (includeRawAudio _); simpl in H.
  - destruct (Tracker.new _ _) as [tr|]; simpl in H; [|done].
    injection H as <-. simpl. split_and!; by eauto.
  - destruct (Tracker.new _ _) as [tr|]; simpl in H; [|done].
    injection H as <-. simpl. split_and!; by eauto.
Qed.

Lemma length_push_shift (capacity : Z) (queue : list Frame) (f : Frame) :
  0 <= capacity → Z.of_nat (length queue) <= capacity →
  Z.of_nat (length (push_shift capacity queue f)) <= capacity.
Proof.
  intros Hcap Hlen. unfold push_shift. case_bool_decide as Hgt.
  - rewrite length_app in Hgt. destruct queue as [|x queue]; simpl in *.
    + lia.
    + rewrite length_app. simpl. lia.
  - lia.
Qed.

(** A push and eviction keep the last [capacity] frames of the history. *)
Lemma push_shift_drop (capacity : nat) (queue frames : list Frame) (f : Frame) :
  (0 < capacity)%nat → (length queue <= capacity)%nat →
  let queue' := push_shift (Z.of_nat capacity) queue f in
  drop (length (queue' ++ frames) - capacity) (queue' ++ frames)
  = drop (length (queue ++ f :: frames) - capacity) (queue ++ f :: frames).
Proof.
  intros Hcap Hlen. unfold push_shift. rewrite length_app. simpl.
  case_bool_decide as Hgt; simpl.
  - destruct queue as [|x queue]; simpl in *; [lia|].
    rewrite length_app in Hgt. simpl in Hgt.
    rewrite <-!app_assoc. simpl. rewrite !length_app. simpl.
    replace (S (length queue + S (length frames)) - capacity)%nat
      with (S (length queue + 1 + length frames - capacity)) by lia.
    done.
  - rewrite <-app_assoc. simpl. rewrite !length_app. simpl. f_equal. lia.
Qed.

(** The queue of a run holds the last [capacity] frames pushed. *)
Lemma run_queue (capacity : nat) (samples : list (TypedArray.t * TypedArray.t)) :
  (0 < capacity)%nat →
  ∀ e : Extractor.t,
    is_Some (analyser e) → numFrames (settings e) = Z.of_nat capacity →
    (length (freqDataQueue e) <= capacity)%nat →
    let history :=
      freqDataQueue e
        ++ pushed_frames (columnTruncateLength (settings e)) (freqData e) samples in
    freqDataQueue (run samples e) = drop (length history - capacity) history.
Proof.
  intros Hcap. induction samples as [|s samples IH]; intros e Ha Hn Hlen; simpl.
  - rewrite app_nil_r.
    by replace (length (freqDataQueue e) - capacity)%nat with 0%nat by lia.
  - destruct (onAudioFrame_state s.1 s.2 e Ha) as (Hs & Ha' & _ & Hbuf & Hq).
    unfold run in *. simpl.
    rewrite IH; rewrite ?Hs, ?Ha', ?Hbuf, ?Hq; try done.
    + unfold silent, frame_of, sample_read. destruct (is_neg_infinity _); [done|].
      rewrite Hn. by apply push_shift_drop.
    + destruct (silent e s.1); [done|].
      pose proof (length_push_shift (numFrames (settings e)) (freqDataQueue e)
                    (frame_of e s.1)) as Hps.
      lia.
Qed.


(** A run leaves the settings and the analyser in place. *)
Lemma run_fields (samples : list (TypedArray.t * TypedArray.t)) (e : Extractor.t) :
  is_Some (analyser e) →
  settings (run samples e) = settings e ∧ analyser (run samples e) = analyser e.
Proof.
  revert e. induction samples as [|s samples IH]; intros e Ha; [done|].
  destruct (onAudioFrame_state s.1 s.2 e Ha) as (Hs & Ha' & _).
  unfold run in *. simpl. destruct (IH (fst (onAudioFrame s.1 s.2 e))) as [-> ->].
  - by rewrite Ha'.
  - done.
Qed.

Lemma run_snoc (samples : list (TypedArray.t * TypedArray.t))
    (s : TypedArray.t * TypedArray.t) (e : Extractor.t) :
  run (samples ++ [s]) e = fst (onAudioFrame s.1 s.2 (run samples e)).
Proof. unfold run. by rewrite foldl_app. Qed.

(** A tick that invokes the callback did so on the tracker's word, and on
    the tensor built from the queue as it then was. *)
Lemma fired_only_on_tick (fs ts : TypedArray.t) (e e' : Extractor.t)
    (freq : Tensor) (time : option Tensor) :
  onAudioFrame fs ts e = (e', Ok (Fired freq time)) →
  (∃ tr tr', tracker e = Some tr ∧ Tracker.tick tr = (tr', Ok true))
  ∧ ∃ flat, flattenQueue (freqDataQueue e') = Ok flat
            ∧ getInputTensorFromFrequencyData flat
                [1; numFrames (settings e); columnTruncateLength (settings e); 1]
              = Ok freq.
Proof.
  intros H.
  destruct (analyser e) as [a|] eqn:Ha.
  2:{ unfold onAudioFrame in H. unfold_monad. by rewrite Ha in H. }
  assert (Hsome : is_Some (analyser e)) by eauto.
  destruct (silent e fs) eqn:Hsilent.
  { by rewrite onAudioFrame_silent in H. }
  rewrite onAudioFrame_audible in H by done.
  destruct (after_push_fields fs ts e) as (Hs & _ & Htr & _).
  unfold Monad.bind, on_tracker in H. rewrite Htr in H.
  destruct (tracker e) as [tr|]; [|done].
  destruct (Tracker.tick tr) as [tr' r] eqn:Htick.
  assert (∃ b, r = Ok b) as [b ->] by (injection Htick as _ <-; eauto).
  destruct b; [|done]. split; [by eauto|].
  set (e4 := set_tracker (Some tr') (after_push fs ts e)) in *.
  assert (Hs4 : settings e4 = settings e) by done.
  destruct (fire_state e4) as [tr'' Hstate].
  rewrite H in Hstate. simpl in Hstate. subst e'.
  change (freqDataQueue (set_tracker tr'' e4)) with (freqDataQueue e4).
  unfold fire in H. unfold_monad. rewrite Hs4 in H.
  destruct (flattenQueue (freqDataQueue e4)) as [flat|]; simpl in H; [|done].
  exists flat. split; [done|].
  destruct (getInputTensorFromFrequencyData flat _) as [tensor|]; simpl in H; [|done].
  destruct (includeRawAudio _); simpl in H.
  - destruct (flattenQueue _); simpl in H; [|done].
    destruct (getInputTensorFromFrequencyData _ _); simpl in H; [|done].
    destruct (spectrogramCallback _ _ _); simpl in H; by simplify_eq.
  - destruct (spectrogramCallback _ _ _); simpl in H; by simplify_eq.
Qed.

Lemma pair_of_snd {A B} (p : A * B) (b : B) : snd p = b → p = (fst p, b).
Proof. intros <-. by destruct p. Qed.

(** [start] on an extractor that is streaming. *)
Lemma start_when_streaming (node : AnalyserNode) (e : Extractor.t) :
  is_Some (frameIntervalTask e) → Extractor.start node e = (e, Throw IllegalState).
Proof.
  intros [task Htask]. unfold Extractor.start. unfold_monad. by rewrite Htask.
Qed.

(** [stop] on an extractor that is not streaming. *)
Lemma stop_when_idle (e : Extractor.t) :
  frameIntervalTask e = None → Extractor.stop e = (e, Throw IllegalState).
Proof. intros Htask. unfold Extractor.stop. unfold_monad. by rewrite Htask. Qed.

(** [stop] on an extractor whose [audioContext] was never assigned: the
    task is cancelled and the analyser disconnected, and then the call of
    [close] on [undefined] throws. *)
Lemma stop_without_audioContext (e : Extractor.t) :
  is_Some (frameIntervalTask e) → is_Some (analyser e) → audioContext e = None →
  ∃ e', Extractor.stop e = (e', Throw TypeError) ∧ frameIntervalTask e' = None.
Proof.
  intros [task Htask] [a Ha] Hctx. unfold Extractor.stop. unfold_monad.
  rewrite Htask, Ha, Hctx. simpl. by eexists.
Qed.


(** C1, as the code has it.  A tick invokes the scoring callback only when
    the tracker signals fire, and then on the tensor built from the queue
    as it is, full or not: there is no test of the queue's length.  With a
    capacity of 40 and a period of 20, of the first 40 audible ticks
    exactly ticks 20 and 40 invoke the callback, and at tick 20 the tensor
    holds 20 frames behind 20 frames' worth of zeros. *)
Theorem callback_follows_tracker_alone :
  (∀ (fs ts : TypedArray.t) (e e' : Extractor.t) (freq : Tensor) (time : option Tensor),
     onAudioFrame fs ts e = (e', Ok (Fired freq time)) →
     (∃ tr tr', tracker e = Some tr ∧ Tracker.tick tr = (tr', Ok true))
     ∧ ∃ flat, flattenQueue (freqDataQueue e') = Ok flat
               ∧ getInputTensorFromFrequencyData flat
                   [1; numFrames (settings e); columnTruncateLength (settings e); 1]
                 = Ok freq)
  ∧ (∃ e e0,
       Extractor.new (Some Scenario.config) = Ok e
       ∧ Extractor.start Scenario.node e = (e0, Ok tt)
       ∧ numFrames (settings e0) = 40
       ∧ (Tracker.period <$> tracker e0) = Some 20
       ∧ is_fired <$> outcomes (replicate 40 Scenario.tone) e0
         = replicate 19 false ++ [true] ++ replicate 19 false ++ [true]
       ∧ outcomes (replicate 20 Scenario.tone) e0 !! 19%nat
         = Some (Ok (Fired
                  (mkTensor
                     (replicate 40 JS.zero
                        ++ concat (replicate 20 (fst Scenario.tone)))
                     [1; 40; 2; 1])
                  None))).
Proof.
  split.
  - intros fs ts e e' freq time H. exact (fired_only_on_tick fs ts e e' freq time H).
  - do 2 eexists. split; [reflexivity|].
    split; [by apply pair_of_snd; vm_compute|].
    split_and!; by vm_compute.
Qed.

(** C1 on a started extractor of period 1, whose first audible tick
    fires. *)
Lemma callback_follows_tracker_alone_witness :
  let e :=
    Extractor.mk
      (mkSettings 0 Scenario.never_rest 1 44100 1 (1000 # 44100) 1 0 false)
      (Some Scenario.node) [] [JS.zero] [] [] (Some (Tracker.mk 1 0 0 None))
      (Some (mkTask (1000 # 44100))) None None in
  ∃ e' freq time,
    onAudioFrame [JS.Fin 1] [] e = (e', Ok (Fired freq time))
    ∧ (∃ tr tr', tracker e = Some tr ∧ Tracker.tick tr = (tr', Ok true))
    ∧ ∃ flat, flattenQueue (freqDataQueue e') = Ok flat
              ∧ getInputTensorFromFrequencyData flat
                  [1; numFrames (settings e); columnTruncateLength (settings e); 1]
                = Ok freq.
Proof.
  intros e. do 3 eexists.
  assert (H : onAudioFrame [JS.Fin 1] [] e
              = (fst (onAudioFrame [JS.Fin 1] [] e),
                 Ok (Fired (mkTensor [JS.Fin 1] [1; 1; 1; 1]) None)))
    by reflexivity.
  split; [exact H|].
  exact (proj1 callback_follows_tracker_alone _ _ _ _ _ _ H).
Defined.

(** C1 as stated fails: with a capacity of 40 and a period of 20, tick 20
    invokes the callback while the queue holds 20 frames. *)
Lemma callback_invoked_before_queue_is_full :
  ∃ e e0 freq,
    Extractor.new (Some Scenario.config) = Ok e
    ∧ Extractor.start Scenario.node e = (e0, Ok tt)
    ∧ numFrames (settings e0) = 40
    ∧ outcomes (replicate 20 Scenario.tone) e0 !! 19%nat = Some (Ok (Fired freq None))
    ∧ length (freqDataQueue (run (replicate 19 Scenario.tone) e0)) = 19%nat
    ∧ length (freqDataQueue (run (replicate 20 Scenario.tone) e0)) = 20%nat.
Proof.
  do 3 eexists. split; [reflexivity|].
  split; [by apply pair_of_snd; vm_compute|].
  split_and!; by vm_compute.
Qed.

(** C5.  On an extractor built and started, after any sequence of ticks
    the frequency queue holds the last [capacity] frames pushed, in push
    order, where [capacity] is [numFramesPerSpectrogram]: its length is the
    number of frames pushed until that reaches [capacity], and [capacity]
    from then on, never more; and an audible tick on a full queue drops the
    oldest frame and appends the new one. *)
Theorem frame_queue_is_bounded_fifo (cfg : Config) (node : AnalyserNode)
    (e e0 : Extractor.t) (samples : list (TypedArray.t * TypedArray.t)) :
  Extractor.new (Some cfg) = Ok e →
  Extractor.start node e = (e0, Ok tt) →
  let capacity := Z.to_nat (cfg_numFramesPerSpectrogram cfg) in
  let frames :=
    pushed_frames (columnTruncateLength (settings e0)) (freqData e0) samples in
  let queue := freqDataQueue (run samples e0) in
  queue = drop (length frames - capacity) frames
  ∧ length queue = Nat.min (length frames) capacity
  ∧ (length queue <= capacity)%nat
  ∧ ∀ s : TypedArray.t * TypedArray.t,
      silent (run samples e0) s.1 = false → length queue = capacity →
      freqDataQueue (run (samples ++ [s]) e0)
      = tail queue ++ [frame_of (run samples e0) s.1].
Proof.
  intros Hnew Hstart capacity frames queue.
  destruct (new_ok cfg e Hnew) as (Hn & Hpos & _).
  destruct (start_ok node e e0 Hstart) as (Hs & Ha & Hq & _).
  assert (Hcap : numFrames (settings e0) = Z.of_nat capacity)
    by (unfold capacity; rewrite Hs; lia).
  assert (Hqueue : queue = drop (length frames - capacity) frames).
  { unfold queue. rewrite (run_queue capacity samples); try done.
    - by rewrite Hq.
    - lia.
    - rewrite Hq. simpl. lia. }
  assert (Hlen : length queue = Nat.min (length frames) capacity)
    by (rewrite Hqueue, length_drop; lia).
  split_and!; [done|done|lia|].
  intros s Hsilent Hfull.
  destruct (run_fields samples e0 Ha) as [Hs' Ha'].
  rewrite run_snoc.
  destruct (onAudioFrame_state s.1 s.2 (run samples e0)) as (_ & _ & _ & _ & ->);
    [by rewrite Ha'|].
  rewrite Hsilent, Hs', Hcap. fold queue. unfold push_shift.
  rewrite bool_decide_eq_true_2 by (rewrite length_app; simpl; lia).
  destruct queue; [simpl in Hfull; lia|done].
Qed.

(** C5 on a capacity of 2 and three audible samples. *)
Lemma frame_queue_is_bounded_fifo_witness :
  let cfg :=
    mkConfig (Some Scenario.never_rest) 2 0 None (Some 2) None 0 false in
  let samples := [([JS.Fin 1; JS.Fin 2], []); ([JS.Fin 3; JS.Fin 4], []);
                  ([JS.Fin 5; JS.Fin 6], [])] in
  ∃ e e0,
    Extractor.new (Some cfg) = Ok e
    ∧ Extractor.start Scenario.node e = (e0, Ok tt)
    ∧ freqDataQueue (run samples e0) = [[JS.Fin 3; JS.Fin 4]; [JS.Fin 5; JS.Fin 6]]
    ∧ length (freqDataQueue (run samples e0)) = 2%nat.
Proof.
  intros cfg samples. do 2 eexists.
  split; [reflexivity|].
  assert (Hstart : ∀ e, Extractor.new (Some cfg) = Ok e →
            Extractor.start Scenario.node e
            = (fst (Extractor.start Scenario.node e), Ok tt)).
  { intros e [= <-]. reflexivity. }
  split; [apply Hstart; reflexivity|].
  pose proof (frame_queue_is_bounded_fifo cfg Scenario.node _ _ samples
                eq_refl (Hstart _ eq_refl)) as (Hq & Hlen & _).
  split; [exact Hq|exact Hlen].
Defined.

(** C6.  A tick whose sample carries the silence sentinel, that is, whose
    buffer after the read starts with negative infinity, returns at once:
    it raises nothing and invokes no callback; no frame is pushed to either
    queue; the tracker, its counter included, is untouched; and so is every
    other field but the buffer [freqData], which holds the sample read. *)
Theorem silent_tick_is_skipped (fs ts : TypedArray.t) (e : Extractor.t) :
  is_Some (analyser e) →
  head (sample_read e fs) = Some JS.NegInf →
  ∃ e', onAudioFrame fs ts e = (e', Ok Skipped)
        ∧ e' = set_freqData (sample_read e fs) e
        ∧ freqDataQueue e' = freqDataQueue e
        ∧ timeDataQueue e' = timeDataQueue e
        ∧ timeData e' = timeData e
        ∧ tracker e' = tracker e
        ∧ frameIntervalTask e' = frameIntervalTask e
        ∧ settings e' = settings e
        ∧ analyser e' = analyser e
        ∧ audioContext e' = audioContext e
        ∧ stream e' = stream e.
Proof.
  intros Ha Hhead. eexists. split.
  - apply onAudioFrame_silent; [done|]. unfold silent. by rewrite Hhead.
  - by split_and!.
Qed.

(** C6 on a started extractor with three frames queued and a sample whose
    first bin is negative infinity. *)
Lemma silent_tick_is_skipped_witness :
  let e := run (replicate 3 Scenario.tone)
             (fst (Extractor.start Scenario.node
                     (Extractor.mk
                        (mkSettings 0 Scenario.never_rest 40 44100 2
                           (2000 # 44100) 2 (1 # 2) false)
                        None [] [] [] [] None None None None))) in
  ∃ e', onAudioFrame [JS.NegInf; JS.NegInf] [] e = (e', Ok Skipped)
        ∧ freqDataQueue e' = freqDataQueue e
        ∧ tracker e' = tracker e.
Proof.
  intros e.
  destruct (silent_tick_is_skipped [JS.NegInf; JS.NegInf] [] e)
    as (e' & Hrun & _ & Hq & _ & _ & Htr & _).
  - eexists. reflexivity.
  - reflexivity.
  - exists e'. split; [exact Hrun|]. split; [exact Hq|exact Htr].
Defined.

(** C9, where it holds: [start] on a streaming extractor raises an
    illegal-state error and changes nothing, and so does [stop] on an idle
    one. *)
Lemma start_stop_illegal_state (node : AnalyserNode) (e : Extractor.t) :
  (is_Some (frameIntervalTask e) → Extractor.start node e = (e, Throw IllegalState))
  ∧ (frameIntervalTask e = None → Extractor.stop e = (e, Throw IllegalState)).
Proof. split; [apply start_when_streaming|apply stop_when_idle]. Qed.

(** C9, where it fails: on every extractor built and started, the first
    [stop()] cancels the sampling task and then raises a TypeError, because
    [audioContext] is never assigned; the second raises an illegal-state
    error. *)
Lemma first_stop_raises (cfg : Config) (node : AnalyserNode) (e e0 : Extractor.t) :
  Extractor.new (Some cfg) = Ok e →
  Extractor.start node e = (e0, Ok tt) →
  ∃ e1, Extractor.stop e0 = (e1, Throw TypeError)
        ∧ frameIntervalTask e1 = None
        ∧ Extractor.stop e1 = (e1, Throw IllegalState).
Proof.
  intros Hnew Hstart.
  destruct (new_ok cfg e Hnew) as (_ & _ & _ & _ & _ & _ & _ & _ & _ & _ & Hctx & _).
  destruct (start_ok node e e0 Hstart) as (_ & Ha & _ & _ & Htask & Hctx' & _).
  destruct (stop_without_audioContext e0) as (e1 & Hstop & Hnone); try done.
  { by rewrite Hctx'. }
  exists e1. split_and!; [done..|]. by apply stop_when_idle.
Qed.

(** C9 on the extractor of [init], for a model input of 43 frames of 232
    bins: the first of two consecutive [stop()] calls raises a TypeError,
    after cancelling the task, and the second an illegal-state error. *)
Theorem stop_twice_on_init_extractor :
  ∃ e e0 e1,
    Extractor.new (Some (Scenario.init_config 43 232)) = Ok e
    ∧ Extractor.start Scenario.node e = (e0, Ok tt)
    ∧ Extractor.stop e0 = (e1, Throw TypeError)
    ∧ frameIntervalTask e1 = None
    ∧ Extractor.stop e1 = (e1, Throw IllegalState).
Proof.
  do 2 eexists.
  assert (Hstart : ∀ e, Extractor.new (Some (Scenario.init_config 43 232)) = Ok e →
            Extractor.start Scenario.node e
            = (fst (Extractor.start Scenario.node e), Ok tt)).
  { intros e [= <-]. apply pair_of_snd. by vm_compute. }
  destruct (first_stop_raises (Scenario.init_config 43 232) Scenario.node _ _
              eq_refl (Hstart _ eq_refl))
    as (e1 & Hstop).
  exists e1. split; [reflexivity|]. split; [apply Hstart; reflexivity|exact Hstop].
Qed.

End extractor_properties.

(** ** Defaults of the constructors *)

Section defaults.
Import Extractor.

Lemma or_default_Some_default (x : option Z) (d : Z) :
  or_default (Some (default d x)) d = or_default x d.
Proof. destruct x as [v|]; simpl; [done|]. by destruct (decide (d = 0)). Qed.

Lemma or_default_columnTruncateLength (fft ctl : option Z) :
  or_default (Some (default (default 1024 fft) ctl))
    (or_default (Some (default 1024 fft)) 1024)
  = or_default ctl (or_default fft 1024).
Proof.
  rewrite or_default_Some_default. destruct ctl as [c|]; simpl; [done|].
  destruct fft as [f|]; simpl; [|done]. by destruct (decide (f = 0)).
Qed.

(** Every failure of the constructor is an invalid-argument error. *)
Lemma new_throws_InvalidArgument (config : option Config) (err : exn) :
  Extractor.new config = Throw err → err = InvalidArgument.
Proof.
  unfold Extractor.new. intros H.
  repeat (case_match; try done); by simplify_eq.
Qed.

(** C10.  A tracker built with a [null] or [undefined] suppression
    duration is built, not rejected, whenever its period is positive: it is
    the tracker with suppression time 0, counter 0 and no onset, the very
    tracker a 0 gives, whereas a duration that is given is kept; and for
    every period the outcome, a failure included, is the one a 0 gives, so
    the two trackers answer every sequence of calls alike.  An extractor
    built from a configuration without [sampleRateHz], [fftSize] or
    [columnTruncateLength] is the one built with 44100, 1024 and the FFT
    size written in their place, failures included; when it is built, its
    fields hold these values; and the validation sees the defaulted values:
    a [columnTruncateLength] above the default FFT size of 1024 is
    rejected. *)
Theorem omitted_parameters_are_defaulted :
  (∀ P : Z, P > 0 → Tracker.new P None = Ok (Tracker.mk P 0 0 None))
  ∧ (∀ P S : Z, P > 0 → Tracker.new P (Some S) = Ok (Tracker.mk P S 0 None))
  ∧ (∀ P : Z, Tracker.new P None = Tracker.new P (Some 0))
  ∧ (∀ (P : Z) (tr : Tracker.t) (calls : list TrackerSpec.Call),
       Tracker.new P None = Ok tr →
       ∃ tr0, Tracker.new P (Some 0) = Ok tr0
              ∧ TrackerSpec.fired calls tr = TrackerSpec.fired calls tr0)
  ∧ (∀ cfg : Config,
       Extractor.new (Some cfg) = Extractor.new (Some (with_defaults cfg)))
  ∧ (∀ (cfg : Config) (e : Extractor.t),
       Extractor.new (Some cfg) = Ok e →
       (cfg_sampleRateHz cfg = None → sampleRateHz (settings e) = 44100)
       ∧ (cfg_fftSize cfg = None → fftSize (settings e) = 1024)
       ∧ (cfg_columnTruncateLength cfg = None →
          columnTruncateLength (settings e) = fftSize (settings e)))
  ∧ (∀ (cfg : Config) (c : Z),
       cfg_fftSize cfg = None → cfg_columnTruncateLength cfg = Some c →
       c > 1024 → Extractor.new (Some cfg) = Throw InvalidArgument).
Proof.
  split_and!.
  - intros P HP. unfold Tracker.new. by rewrite decide_True by done.
  - intros P S HP. unfold Tracker.new. by rewrite decide_True by done.
  - done.
  - intros P tr calls Hnew. by exists tr.
  - intros cfg. unfold Extractor.new, with_defaults.
    cbn [cfg_spectrogramCallback cfg_numFramesPerSpectrogram
         cfg_suppressionTimeMillis cfg_sampleRateHz cfg_fftSize
         cfg_columnTruncateLength cfg_overlapFactor cfg_includeRawAudio].
    by rewrite or_default_columnTruncateLength, !or_default_Some_default.
  - intros cfg e Hnew.
    destruct (new_ok cfg e Hnew) as (_ & _ & Hsr & Hfft & Hctl & _).
    rewrite Hsr, Hctl, Hfft. split_and!; by intros ->.
  - intros cfg c Hfft Hctl Hc.
    destruct (Extractor.new (Some cfg)) as [e|err] eqn:Hnew.
    + destruct (new_ok cfg e Hnew) as (_ & _ & _ & Hf & Hctl' & Hle & _).
      rewrite Hctl, Hf, Hfft in Hctl'. simpl in Hctl'.
      rewrite decide_False in Hctl' by lia.
      rewrite Hf, Hfft in Hle. simpl in Hle. lia.
    + by rewrite (new_throws_InvalidArgument _ _ Hnew).
Qed.

(** C10 on a tracker of period 3 built without a suppression duration,
    which answers three ticks as the tracker built with 0 does; on a
    configuration that gives only the callback, the number of frames, the
    suppression time and the overlap factor; and on one that asks for 2000
    columns of the default FFT size. *)
Lemma omitted_parameters_are_defaulted_witness :
  let cfg := mkConfig (Some Scenario.never_rest) 40 0 None None None (1 # 2) false in
  let wide :=
    mkConfig (Some Scenario.never_rest) 40 0 None None (Some 2000) (1 # 2) false in
  let calls := [TrackerSpec.Tick; TrackerSpec.Tick; TrackerSpec.Tick] in
  Tracker.new 3 None = Ok (Tracker.mk 3 0 0 None)
  ∧ Tracker.new 3 (Some 5) = Ok (Tracker.mk 3 5 0 None)
  ∧ (∃ tr0, Tracker.new 3 (Some 0) = Ok tr0
            ∧ TrackerSpec.fired calls (Tracker.mk 3 0 0 None)
              = TrackerSpec.fired calls tr0)
  ∧ (∃ e, Extractor.new (Some cfg) = Ok e
          ∧ sampleRateHz (settings e) = 44100
          ∧ fftSize (settings e) = 1024
          ∧ columnTruncateLength (settings e) = fftSize (settings e))
  ∧ Extractor.new (Some wide) = Throw InvalidArgument.
Proof.
  intros cfg wide calls.
  destruct omitted_parameters_are_defaulted
    as (Hnone & Hsome & _ & Hsame & _ & Hfields & Hreject).
  split; [apply Hnone; lia|]. split; [apply Hsome; lia|].
  split; [apply (Hsame 3); apply Hnone; lia|].
  split.
  - eexists. split; [reflexivity|].
    destruct (Hfields cfg _ eq_refl) as (Hsr & Hfft & Hctl).
    split; [exact (Hsr eq_refl)|]. split; [exact (Hfft eq_refl)|exact (Hctl eq_refl)].
  - apply (Hreject wide 2000); [reflexivity|reflexivity|lia].
Defined.

End defaults.

(** ** Score accumulation *)

Section session_properties.
Import Session.

Lemma for_range_S {S} (n : nat) (body : nat → S → S) (s : S) :
  for_range (Datatypes.S n) body s = body n (for_range n body s).
Proof. unfold for_range. by rewrite seq_S, foldl_app. Qed.

(** A loop that rewrites element [i] from element [i] alone. *)
Lemma for_range_pointwise (g : nat → option JS.num → JS.num) (n : nat)
    (l : TypedArray.t) :
  length (for_range n (fun i acc => <[i := g i (acc !! i)]> acc) l) = length l
  ∧ ∀ j : nat,
      for_range n (fun i acc => <[i := g i (acc !! i)]> acc) l !! j
      = if decide (j < n)%nat then (fun _ => g j (l !! j)) <$> l !! j else l !! j.
Proof.
  induction n as [|n [IHlen IH]].
  - split; [done|]. intros j. by rewrite decide_False by lia.
  - rewrite for_range_S. cbv beta. split; [by rewrite length_insert|].
    intros j. destruct (decide (j = n)) as [->|Hne].
    + rewrite decide_True by lia.
      destruct (decide (n < length l)%nat) as [Hlt|Hge].
      * rewrite list_lookup_insert_eq by lia.
        rewrite IH, decide_False by lia.
        destruct (lookup_lt_is_Some_2 l n Hlt) as [x ->]. done.
      * rewrite list_insert_ge by lia.
        rewrite IH, decide_False by lia.
        by rewrite (lookup_ge_None_2 l n) by lia.
    + rewrite list_lookup_insert_ne by done. rewrite IH.
      destruct (decide (j < n)%nat); [by rewrite decide_True by lia|].
      by rewrite decide_False by lia.
Qed.

(** The loop of the callback: it ends well exactly when no score is
    missing, keeps the length of the sums, and leaves alone the sums below
    its first class and from the first missing score on. *)
Lemma record_from_spec (k : nat) :
  ∀ (i : nat) (scores : list JS.num) (sums : TypedArray.t),
    length (fst (record_from i k scores sums)) = length sums
    ∧ snd (record_from i k scores sums)
      = (if decide (k = 0 ∨ i + k <= length scores)%nat then Ok tt
         else Throw TypeError)
    ∧ ∀ j : nat,
        (j < i ∨ Nat.min (i + k) (Nat.max i (length scores)) <= j)%nat →
        fst (record_from i k scores sums) !! j = sums !! j.
Proof.
  induction k as [|k IH]; intros i scores sums.
  - simpl. by split_and!.
  - simpl. destruct (scores !! i) as [score|] eqn:Hscore.
    + apply lookup_lt_Some in Hscore.
      destruct (IH (S i) scores
                  (<[i := JS.add (to_number (sums !! i)) score]> sums))
        as (Hlen & Hres & Hkeep).
      split; [by rewrite Hlen, length_insert|]. split.
      * rewrite Hres. destruct (decide (k = 0 ∨ S i + k <= length scores)%nat).
        -- by rewrite decide_True by lia.
        -- by rewrite decide_False by lia.
      * intros j Hj. rewrite Hkeep by lia. apply list_lookup_insert_ne. lia.
    + apply lookup_ge_None in Hscore. simpl.
      split; [done|]. split; [|done]. by rewrite decide_False by lia.
Qed.

(** The bookkeeping of the scoring callback for one firing, with [n] class
    labels.  The counter is incremented in every case.  The call returns
    [false], asking for no rest, when the score vector holds a score for
    each of the [n] classes; when a score is missing it throws a TypeError,
    and the sums of the classes from the first missing score on are what
    they were, although the firing was counted.  The sums of classes beyond
    the labels are never written, and the array of sums keeps its
    length. *)
Theorem record_counts_before_it_reads (n : nat) (scores : list JS.num)
    (s : Session.t) :
  predictionCounter (fst (record n scores s)) = predictionCounter s + 1
  ∧ isProcess (fst (record n scores s)) = isProcess s
  ∧ length (predictionSumArray (fst (record n scores s)))
    = length (predictionSumArray s)
  ∧ snd (record n scores s)
    = (if decide (n <= length scores)%nat then Ok false else Throw TypeError)
  ∧ ∀ j : nat, (Nat.min n (length scores) <= j)%nat →
      predictionSumArray (fst (record n scores s)) !! j
      = predictionSumArray s !! j.
Proof.
  unfold record.
  destruct (record_from_spec n 0 scores (predictionSumArray s))
    as (Hlen & Hres & Hkeep).
  destruct (record_from 0 n scores (predictionSumArray s)) as [sums r].
  simpl in *. split; [done|]. split; [done|]. split; [done|]. split.
  - rewrite Hres. destruct (decide (n <= length scores)%nat).
    + by rewrite decide_True by lia.
    + by rewrite decide_False by lia.
  - intros j Hj. apply Hkeep. lia.
Qed.

(** C4, the case of no recording, as the code has it: [showMP3Result]
    then divides zero by zero for every class.  It raises
    nothing, but every number shown is NaN, the index of the maximum is -1,
    and the verdict names a pathology that is [undefined]. *)
Theorem showMP3Result_without_recordings :
  showMP3Result 5 init
  = (init,
     Ok (mkReport (replicate 5 JS.NaN) (replicate 5 JS.NaN) (-1)
           (ProbablePathology None))).
Proof. reflexivity. Qed.

End session_properties.

(** ** normalize *)

Section normalizer.
Import SpecFloat NormalizerSpec.















End normalizer.

(** ** The extractor while it streams *)

Section streaming_properties.
Import Extractor ExtractorSpec StreamingSpec.

Ltac unfold_monad :=
  unfold Monad.bind, Monad.get, Monad.modify, Monad.ret, Monad.throw,
    Monad.lift, when in *.

Lemma length_getFloatData (buf sample : TypedArray.t) :
  length (getFloatData buf sample) = length buf.
Proof.
  unfold getFloatData. rewrite length_app, length_take, length_drop. lia.
Qed.

Lemma length_slice0 (a : TypedArray.t) (e : Z) :
  0 <= e <= Z.of_nat (length a) → Z.of_nat (length (TypedArray.slice0 a e)) = e.
Proof.
  intros He. unfold TypedArray.slice0. rewrite decide_False by lia.
  rewrite length_take. lia.
Qed.

(** A buffer longer than the shape has room for is a RangeError. *)
Lemma getInputTensor_too_long (freqData : TypedArray.t) (dims : list Z) :
  sizeFromShape dims < Z.of_nat (length freqData) →
  getInputTensorFromFrequencyData freqData dims = Throw RangeError.
Proof.
  intros Hlt. unfold getInputTensorFromFrequencyData, TypedArray.make.
  destruct (decide (sizeFromShape dims < 0)); [done|]. cbn [result_bind].
  unfold TypedArray.set. rewrite length_replicate.
  rewrite decide_True; [done|]. left. lia.
Qed.

Lemma tick_pair (tr : Tracker.t) :
  Tracker.tick tr = (ticked tr, Ok (tick_fires tr)).
Proof. reflexivity. Qed.

Lemma after_push_buffers (fs ts : TypedArray.t) (e : Extractor.t) :
  freqData (after_push fs ts e) = sample_read e fs
  ∧ timeData (after_push fs ts e)
    = (if includeRawAudio (settings e) then getFloatData (timeData e) ts
       else timeData e)
  ∧ timeDataQueue (after_push fs ts e)
    = (if includeRawAudio (settings e)
       then timeDataQueue e ++ [getFloatData (timeData e) ts]
       else timeDataQueue e).
Proof. unfold after_push. by destruct (includeRawAudio _). Qed.

(** An audible tick on which the tracker does not fire. *)
Lemma audible_tick_quiet (fs ts : TypedArray.t) (e : Extractor.t) (tr : Tracker.t) :
  is_Some (analyser e) → silent e fs = false → tracker e = Some tr →
  tick_fires tr = false →
  onAudioFrame fs ts e
  = (set_tracker (Some (ticked tr)) (after_push fs ts e), Ok Pushed).
Proof.
  intros Ha Hsilent Htr Hquiet. rewrite onAudioFrame_audible by done.
  destruct (after_push_fields fs ts e) as (_ & _ & Htr' & _).
  unfold Monad.bind, on_tracker. rewrite Htr', Htr, tick_pair, Hquiet. done.
Qed.

(** An audible tick on which the tracker fires, without raw audio. *)
Lemma audible_tick_fire (fs ts : TypedArray.t) (e : Extractor.t) (tr : Tracker.t)
    (flat : TypedArray.t) (tensor : Tensor) :
  is_Some (analyser e) → silent e fs = false → tracker e = Some tr →
  tick_fires tr = true → includeRawAudio (settings e) = false →
  flattenQueue (freqDataQueue (after_push fs ts e)) = Ok flat →
  getInputTensorFromFrequencyData flat
    [1; numFrames (settings e); columnTruncateLength (settings e); 1] = Ok tensor →
  onAudioFrame fs ts e
  = (set_tracker
       (Some (if spectrogramCallback (settings e) tensor None
              then suppressed (ticked tr) else ticked tr))
       (after_push fs ts e),
     Ok (Fired tensor None)).
Proof.
  intros Ha Hsilent Htr Hfire Hraw Hflat Htensor.
  rewrite onAudioFrame_audible by done.
  destruct (after_push_fields fs ts e) as (Hs & _ & Htr' & _).
  unfold Monad.bind at 1. unfold on_tracker. rewrite Htr', Htr, tick_pair, Hfire.
  unfold fire. unfold_monad.
  cbn [fst snd settings freqDataQueue set_tracker]. rewrite Hs, Hflat.
  cbn [result_bind]. rewrite Htensor, Hraw.
  destruct (spectrogramCallback _ _ _); [|done].
  unfold on_tracker. cbn [tracker set_tracker]. done.
Qed.

(** An audible tick on which the tracker fires, with raw audio. *)
Lemma audible_tick_fire_raw (fs ts : TypedArray.t) (e : Extractor.t) (tr : Tracker.t)
    (flat tflat : TypedArray.t) (tensor : Tensor) :
  is_Some (analyser e) → silent e fs = false → tracker e = Some tr →
  tick_fires tr = true → includeRawAudio (settings e) = true →
  flattenQueue (freqDataQueue (after_push fs ts e)) = Ok flat →
  getInputTensorFromFrequencyData flat
    [1; numFrames (settings e); columnTruncateLength (settings e); 1] = Ok tensor →
  flattenQueue (timeDataQueue (after_push fs ts e)) = Ok tflat →
  onAudioFrame fs ts e
  = match getInputTensorFromFrequencyData tflat
            [1; numFrames (settings e) * fftSize (settings e)] with
    | Ok ttensor =>
        (set_tracker
           (Some (if spectrogramCallback (settings e) tensor (Some ttensor)
                  then suppressed (ticked tr) else ticked tr))
           (after_push fs ts e),
         Ok (Fired tensor (Some ttensor)))
    | Throw err => (set_tracker (Some (ticked tr)) (after_push fs ts e), Throw err)
    end.
Proof.
  intros Ha Hsilent Htr Hfire Hraw Hflat Htensor Htflat.
  rewrite onAudioFrame_audible by done.
  destruct (after_push_fields fs ts e) as (Hs & _ & Htr' & _).
  unfold Monad.bind at 1. unfold on_tracker. rewrite Htr', Htr, tick_pair, Hfire.
  unfold fire. unfold_monad.
  cbn [fst snd settings freqDataQueue timeDataQueue set_tracker]. rewrite Hs, Hflat.
  cbn [result_bind]. rewrite Htensor, Hraw, Htflat.
  destruct (getInputTensorFromFrequencyData tflat _) as [ttensor|err]; [|done].
  destruct (spectrogramCallback _ _ _); [|done].
  unfold on_tracker. cbn [tracker set_tracker]. done.
Qed.

(** Firing leaves the extractor as it is, or, when the callback asks for
    a rest, with its tracker suppressed. *)
Lemma fire_tracker (e : Extractor.t) (tr : Tracker.t) :
  tracker e = Some tr →
  fst (fire e) = e
  ∨ (fst (fire e) = set_tracker (Some (suppressed tr)) e
     ∧ ∃ freq time, spectrogramCallback (settings e) freq time = true).
Proof.
  intros Htr. unfold fire. unfold_monad.
  destruct (flattenQueue _); simpl; [|by left].
  destruct (getInputTensorFromFrequencyData _ _); simpl; [|by left].
  destruct (includeRawAudio _); simpl.
  - destruct (flattenQueue _); simpl; [|by left].
    destruct (getInputTensorFromFrequencyData _ _); simpl; [|by left].
    destruct (spectrogramCallback _ _ _) eqn:Hcb; simpl; [|by left].
    right. unfold on_tracker. rewrite Htr. eauto.
  - destruct (spectrogramCallback _ _ _) eqn:Hcb; simpl; [|by left].
    right. unfold on_tracker. rewrite Htr. eauto.
Qed.

(** The extractor after any tick: a silent tick writes the buffer; an
    audible one pushes, evicts, ticks the tracker and may suppress it. *)
Lemma onAudioFrame_next (fs ts : TypedArray.t) (e : Extractor.t) (tr : Tracker.t) :
  is_Some (analyser e) → tracker e = Some tr →
  if silent e fs
  then fst (onAudioFrame fs ts e) = set_freqData (sample_read e fs) e
  else ∃ tr', (tr' = ticked tr
               ∨ (tr' = suppressed (ticked tr)
                  ∧ ∃ freq time, spectrogramCallback (settings e) freq time = true))
              ∧ fst (onAudioFrame fs ts e)
                = set_tracker (Some tr') (after_push fs ts e).
Proof.
  intros Ha Htr. destruct (silent e fs) eqn:Hsilent.
  - by rewrite onAudioFrame_silent.
  - rewrite onAudioFrame_audible by done.
    destruct (after_push_fields fs ts e) as (Hs & _ & Htr' & _).
    unfold Monad.bind, on_tracker. rewrite Htr', Htr, tick_pair.
    destruct (tick_fires tr).
    + set (e5 := set_tracker (Some (ticked tr)) (after_push fs ts e)).
      destruct (fire_tracker e5 (ticked tr) eq_refl) as [-> | [-> Hcb]].
      * exists (ticked tr). by split; [left|].
      * exists (suppressed (ticked tr)). split; [right|done].
        split; [done|]. by rewrite <-Hs.
    + exists (ticked tr). by split; [left|].
Qed.

Lemma push_shift_Forall (P : Frame → Prop) (capacity : Z) (queue : list Frame)
    (f : Frame) :
  Forall P queue → P f → Forall P (push_shift capacity queue f).
Proof.
  intros Hq Hf. unfold push_shift.
  assert (Hall : Forall P (queue ++ [f])) by (apply Forall_app; auto).
  destruct (bool_decide _); [|done].
  destruct (queue ++ [f]); [done|]. by inversion Hall.
Qed.

Lemma push_shift_nonempty (capacity : Z) (queue : list Frame) (f : Frame) :
  0 < capacity → push_shift capacity queue f ≠ [].
Proof.
  intros Hcap. unfold push_shift. case_bool_decide as Hgt.
  - rewrite length_app in Hgt. simpl in Hgt.
    destruct queue as [|x [|y queue]]; simpl in *; [lia|done|done].
  - by destruct queue.
Qed.

(** A tick keeps an extractor streaming. *)
Lemma streaming_step (fs ts : TypedArray.t) (e : Extractor.t) :
  streaming e → streaming (fst (onAudioFrame fs ts e)).
Proof.
  intros (Ha & [tr Htr] & Hcap & Hctl & Hbuf & Hall & Hlen & Hraw).
  pose proof (onAudioFrame_next fs ts e tr Ha Htr) as Hnext.
  assert (Hbuf' : Z.of_nat (length (sample_read e fs)) = fftSize (settings e))
    by (unfold sample_read; by rewrite length_getFloatData).
  destruct (silent e fs).
  - rewrite Hnext. unfold streaming. simpl. split_and!; try done; try lia; by eauto.
  - destruct Hnext as (tr' & _ & ->).
    destruct (after_push_fields fs ts e) as (Hs & Ha' & _ & Hq).
    destruct (after_push_buffers fs ts e) as (Hfd & Htd & Htq).
    unfold streaming.
    cbn [settings analyser tracker freqData freqDataQueue timeData timeDataQueue
         set_tracker].
    rewrite Hs, Ha', Hq, Hfd, Htd, Htq. split_and!; try done; try lia; try by eauto.
    + apply push_shift_Forall; [done|].
      unfold frame_of. apply length_slice0. lia.
    + apply length_push_shift; lia.
    + intros Hr. destruct (Hraw Hr) as [Htlen Htall]. rewrite Hr. split.
      * by rewrite length_getFloatData.
      * apply Forall_app. split; [done|].
        apply Forall_singleton. by rewrite length_getFloatData.
Qed.

Lemma streaming_run (samples : list (TypedArray.t * TypedArray.t)) (e : Extractor.t) :
  streaming e → streaming (run samples e).
Proof.
  revert e. induction samples as [|s samples IH]; intros e He; [done|].
  apply IH, streaming_step, He.
Qed.

(** What a successful [start] leaves, field by field. *)
Lemma start_fields (node : AnalyserNode) (e e0 : Extractor.t) :
  Extractor.start node e = (e0, Ok tt) →
  let s := settings e in
  settings e0 = s
  ∧ 0 <= fftSize s
  ∧ freqDataQueue e0 = []
  ∧ freqData e0 = replicate (Z.to_nat (fftSize s)) JS.zero
  ∧ tracker e0 = Some (Tracker.mk (period_of s) (suppression_ticks s) 0 None)
  ∧ (if includeRawAudio s
     then timeDataQueue e0 = []
          ∧ timeData e0 = replicate (Z.to_nat (fftSize s)) JS.zero
     else timeDataQueue e0 = timeDataQueue e ∧ timeData e0 = timeData e).
Proof.
  unfold Extractor.start. unfold_monad. intros H.
  destruct (frameIntervalTask e); [done|]. simpl in H.
  unfold TypedArray.make in H.
  destruct (decide (fftSize (settings e) < 0)) as [Hneg|Hpos]; simpl in H; [done|].
  fold (period_of (settings e)) in H. fold (suppression_ticks (settings e)) in H.
  unfold Tracker.new in H.
  destruct (includeRawAudio _); simpl in H.
  - destruct (decide (period_of (settings e) > 0)); simpl in H; [|done].
    injection H as <-. simpl. split_and!; try done; lia.
  - destruct (decide (period_of (settings e) > 0)); simpl in H; [|done].
    injection H as <-. simpl. split_and!; try done; lia.
Qed.

(** An extractor built with a positive width and started is streaming. *)
Lemma started_streaming (cfg : Config) (node : AnalyserNode) (e e0 : Extractor.t) :
  Extractor.new (Some cfg) = Ok e →
  Extractor.start node e = (e0, Ok tt) →
  0 < columnTruncateLength (settings e) →
  streaming e0.
Proof.
  intros Hnew Hstart Hctl.
  destruct (new_ok cfg e Hnew) as (_ & Hcap & _ & _ & _ & Hle & _).
  destruct (start_ok node e e0 Hstart) as (_ & Ha & _ & Htr & _).
  destruct (start_fields node e e0 Hstart) as (Hs & Hfft & Hq & Hbuf & _ & Hraw).
  unfold streaming. rewrite Hs, Hq, Hbuf, length_replicate.
  split_and!; try done; try (simpl; lia).
  intros Hr. rewrite Hr in Hraw. destruct Hraw as [-> ->].
  rewrite length_replicate. split; [lia|done].
Qed.

Lemma sizeFromShape_frames (numFrames width : Z) :
  sizeFromShape [1; numFrames; width; 1] = numFrames * width.
Proof. unfold sizeFromShape. simpl. lia. Qed.

(** On a streaming extractor the flattening and the tensor of the
    frequency queue never fail. *)
Lemma streaming_freq_tensor (fs : TypedArray.t) (e : Extractor.t) :
  streaming e →
  let s := settings e in
  let queue := push_shift (numFrames s) (freqDataQueue e) (frame_of e fs) in
  flattenQueue queue = Ok (concat queue)
  ∧ getInputTensorFromFrequencyData (concat queue)
      [1; numFrames s; columnTruncateLength s; 1]
    = Ok (padded_tensor (numFrames s) (columnTruncateLength s) queue).
Proof.
  intros (Ha & _ & Hcap & Hctl & Hbuf & Hall & Hlen & _) s queue. subst s.
  set (s := settings e) in *.
  assert (Hwidth : Forall (fun f : Frame => length f = Z.to_nat (columnTruncateLength s))
                     queue).
  { apply push_shift_Forall.
    - eapply Forall_impl; [exact Hall|]. intros f Hf. simpl in Hf. lia.
    - unfold frame_of.
      pose proof (length_slice0 (sample_read e fs) (columnTruncateLength s)) as Hsl.
      unfold sample_read in *. rewrite length_getFloatData in Hsl. fold s. lia. }
  assert (Hqlen : Z.of_nat (length queue) <= numFrames s)
    by (apply length_push_shift; lia).
  split.
  - apply (flattenQueue_uniform _ _ (push_shift_nonempty _ _ _ Hcap) Hwidth).
  - rewrite getInputTensor_right_aligned.
    + unfold padded_tensor. by rewrite sizeFromShape_frames.
    + rewrite sizeFromShape_frames, (length_concat_uniform _ _ Hwidth). nia.
Qed.

(** The outcome of a tick of a streaming extractor without raw audio. *)
Lemma streaming_tick_outcome (fs ts : TypedArray.t) (e : Extractor.t)
    (tr : Tracker.t) :
  streaming e → includeRawAudio (settings e) = false → tracker e = Some tr →
  snd (onAudioFrame fs ts e)
  = if silent e fs then Ok Skipped
    else if tick_fires tr
    then Ok (Fired
               (padded_tensor (numFrames (settings e))
                  (columnTruncateLength (settings e))
                  (push_shift (numFrames (settings e)) (freqDataQueue e)
                     (frame_of e fs)))
               None)
    else Ok Pushed.
Proof.
  intros Hstream Hraw Htr.
  pose proof Hstream as (Ha & _).
  destruct (silent e fs) eqn:Hsilent.
  { by rewrite onAudioFrame_silent. }
  destruct (tick_fires tr) eqn:Hfire.
  - destruct (streaming_freq_tensor fs e Hstream) as [Hflat Htensor].
    destruct (after_push_fields fs ts e) as (_ & _ & _ & Hq).
    cbv zeta in Hflat, Htensor. rewrite <-Hq in Hflat, Htensor.
    rewrite (audible_tick_fire fs ts e tr _ _ Ha Hsilent Htr Hfire Hraw Hflat Htensor).
    cbn [snd]. by rewrite Hq.
  - by rewrite (audible_tick_quiet fs ts e tr).
Qed.

(** The tracker of a run: its counter counts the audible ticks, and
    without a callback that asks for a rest it is never suppressed. *)
Lemma run_tracker (samples : list (TypedArray.t * TypedArray.t)) :
  ∀ (e : Extractor.t) (tr : Tracker.t),
    is_Some (analyser e) → tracker e = Some tr →
    ∃ tr', tracker (run samples e) = Some tr'
           ∧ Tracker.counter tr'
             = Tracker.counter tr + Z.of_nat (audible_ticks (freqData e) samples)
           ∧ Tracker.period tr' = Tracker.period tr
           ∧ Tracker.suppressionTime tr' = Tracker.suppressionTime tr
           ∧ ((∀ freq time, spectrogramCallback (settings e) freq time = false) →
              Tracker.suppressionOnset tr' = Tracker.suppressionOnset tr).
Proof.
  induction samples as [|s samples IH]; intros e tr Ha Htr.
  - exists tr. unfold audible_ticks. simpl. split_and!; try done. lia.
  - pose proof (onAudioFrame_next s.1 s.2 e tr Ha Htr) as Hnext.
    unfold audible_ticks. simpl.
    change (is_neg_infinity (head (getFloatData (freqData e) s.1)))
      with (silent e s.1).
    change (getFloatData (freqData e) s.1) with (sample_read e s.1).
    unfold run. simpl. fold (run samples (fst (onAudioFrame s.1 s.2 e))).
    destruct (silent e s.1).
    + rewrite Hnext.
      destruct (IH (set_freqData (sample_read e s.1) e) tr Ha Htr)
        as (tr' & ? & ? & ? & ? & ?).
      exists tr'. by split_and!.
    + destruct Hnext as (tr1 & Htr1 & ->).
      destruct (after_push_fields s.1 s.2 e) as (Hs & Ha' & _ & _).
      destruct (after_push_buffers s.1 s.2 e) as (Hbuf & _ & _).
      destruct (IH (set_tracker (Some tr1) (after_push s.1 s.2 e)) tr1)
        as (tr' & Hrun & Hc & Hp & Hst & Hon); [by rewrite <-Ha' in Ha|done|].
      cbn [freqData settings set_tracker] in Hc, Hon. rewrite Hbuf in Hc.
      unfold audible_ticks in Hc.
      rewrite Hs in Hon.
      exists tr'. split; [done|].
      destruct Htr1 as [-> | [-> (freq & time & Hcb)]].
      * simpl in *. split_and!; try done; try lia.
      * simpl in *. split_and!; try done; try lia.
        intros Hnever. by rewrite Hnever in Hcb.
Qed.

Lemma tick_fires_unsuppressed (tr : Tracker.t) :
  Tracker.suppressionOnset tr = None → 0 <= Tracker.counter tr →
  0 < Tracker.period tr →
  tick_fires tr = true ↔ (Tracker.period tr | Tracker.counter tr + 1).
Proof.
  intros Hon Hc Hp. unfold tick_fires, Tracker.tick. simpl. rewrite Hon.
  rewrite andb_true_r. apply rem_is_zero_spec; lia.
Qed.

Lemma period_of_positive (s : Settings) : 0 < period_of s.
Proof. unfold period_of. lia. Qed.

Lemma outcomes_snoc (samples : list (TypedArray.t * TypedArray.t))
    (s : TypedArray.t * TypedArray.t) (e : Extractor.t) :
  outcomes (samples ++ [s]) e
  = outcomes samples e ++ [snd (onAudioFrame s.1 s.2 (run samples e))].
Proof.
  revert e. induction samples as [|x samples IH]; intros e; simpl.
  - by destruct (onAudioFrame s.1 s.2 e).
  - unfold run. simpl. fold (run samples (fst (onAudioFrame x.1 x.2 e))).
    destruct (onAudioFrame x.1 x.2 e) as [e1 r]. simpl. by rewrite IH.
Qed.

Lemma audible_ticks_snoc (samples : list (TypedArray.t * TypedArray.t))
    (s : TypedArray.t * TypedArray.t) :
  ∀ e : Extractor.t, is_Some (analyser e) →
    audible_ticks (freqData e) (samples ++ [s])
    = (audible_ticks (freqData e) samples
       + if silent (run samples e) s.1 then 0 else 1)%nat.
Proof.
  unfold audible_ticks.
  induction samples as [|x samples IH]; intros e Ha; simpl.
  - change (is_neg_infinity (head (getFloatData (freqData e) s.1)))
      with (silent e s.1).
    by destruct (silent e s.1).
  - destruct (onAudioFrame_state x.1 x.2 e Ha) as (_ & Ha' & _ & Hbuf & _).
    unfold run. simpl. fold (run samples (fst (onAudioFrame x.1 x.2 e))).
    change (getFloatData (freqData e) x.1) with (sample_read e x.1).
    rewrite <-Hbuf.
    destruct (is_neg_infinity _); simpl; rewrite IH; try done; by rewrite Ha'.
Qed.

Lemma div_succ (n P : Z) :
  0 <= n → 0 < P →
  (n + 1) / P = n / P + (if decide ((n + 1) mod P = 0) then 1 else 0).
Proof.
  intros Hn HP.
  pose proof (Z.div_mod n P ltac:(lia)) as Hnm.
  pose proof (Z.mod_pos_bound n P HP) as Hr.
  destruct (decide ((n + 1) mod P = 0)) as [Hd|Hnd].
  - apply Z.mod_divide in Hd; [|lia]. destruct Hd as [k Hk].
    assert (Hkq : k = n / P + 1) by nia.
    symmetry. apply (Z.div_unique _ _ _ 0); lia.
  - rewrite Z.add_0_r. symmetry. apply (Z.div_unique _ _ _ (n mod P + 1)); [|lia].
    destruct (decide (n mod P + 1 = P)) as [Heq|]; [|lia].
    exfalso. apply Hnd. apply Z.mod_divide; [lia|]. exists (n / P + 1). lia.
Qed.

(** The tracker of a started extractor after a run. *)
Lemma started_run_tracker (cfg : Config) (node : AnalyserNode) (e e0 : Extractor.t)
    (samples : list (TypedArray.t * TypedArray.t)) :
  Extractor.new (Some cfg) = Ok e →
  Extractor.start node e = (e0, Ok tt) →
  ∃ tr, tracker (run samples e0) = Some tr
        ∧ Tracker.counter tr = Z.of_nat (audible_ticks (freqData e0) samples)
        ∧ Tracker.period tr = period_of (settings e)
        ∧ Tracker.suppressionTime tr = suppression_ticks (settings e)
        ∧ ((∀ freq time, spectrogramCallback (settings e) freq time = false) →
           Tracker.suppressionOnset tr = None).
Proof.
  intros Hnew Hstart.
  destruct (start_ok node e e0 Hstart) as (_ & Ha & _).
  destruct (start_fields node e e0 Hstart) as (Hs & _ & _ & _ & Htr & _).
  destruct (run_tracker samples e0 _ Ha Htr) as (tr & Hrun & Hc & Hp & Hst & Hon).
  exists tr. rewrite Hs in Hon. simpl in *. split_and!; try done; lia.
Qed.

(** The outcome of the next tick of a run, without raw audio. *)
Lemma started_tick_outcome (cfg : Config) (node : AnalyserNode)
    (e e0 : Extractor.t) (samples : list (TypedArray.t * TypedArray.t))
    (s : TypedArray.t * TypedArray.t) :
  Extractor.new (Some cfg) = Ok e →
  Extractor.start node e = (e0, Ok tt) →
  0 < columnTruncateLength (settings e) →
  includeRawAudio (settings e) = false →
  let r := run samples e0 in
  ∃ tr, tracker r = Some tr
        ∧ snd (onAudioFrame s.1 s.2 r)
          = if silent r s.1 then Ok Skipped
            else if tick_fires tr
            then Ok (Fired
                       (padded_tensor (numFrames (settings e))
                          (columnTruncateLength (settings e))
                          (push_shift (numFrames (settings e)) (freqDataQueue r)
                             (frame_of r s.1)))
                       None)
            else Ok Pushed.
Proof.
  intros Hnew Hstart Hctl Hraw r.
  pose proof (started_streaming cfg node e e0 Hnew Hstart Hctl) as Hstream0.
  pose proof (streaming_run samples e0 Hstream0) as Hstream. fold r in Hstream.
  destruct (start_ok node e e0 Hstart) as (Hs0 & Ha & _).
  destruct (run_fields samples e0 Ha) as [Hs _]. fold r in Hs.
  pose proof Hstream as (_ & [tr Htr] & _).
  exists tr. split; [done|].
  rewrite (streaming_tick_outcome s.1 s.2 r tr Hstream); [|by rewrite Hs, Hs0|done].
  by rewrite Hs, Hs0.
Qed.

(** Without raw audio, the code of a tick of a streaming extractor throws
    nothing of its own, and a tick invokes the callback exactly when it is
    audible and the tracker fires, on the queued frames behind zeros.  This
    holds for every extractor the constructor accepts with a positive
    [columnTruncateLength], once started, after any sequence of ticks each
    of which ended before the next began.  [Fired] is the outcome of a tick
    whose callback returned; only a callback that throws could make such a
    tick fail. *)
Theorem ticks_fire_with_the_tracker (cfg : Config) (node : AnalyserNode)
    (e e0 : Extractor.t) (samples : list (TypedArray.t * TypedArray.t))
    (s : TypedArray.t * TypedArray.t) :
  Extractor.new (Some cfg) = Ok e →
  Extractor.start node e = (e0, Ok tt) →
  0 < columnTruncateLength (settings e) →
  includeRawAudio (settings e) = false →
  let r := run samples e0 in
  ∃ tr, tracker r = Some tr
        ∧ snd (onAudioFrame s.1 s.2 r)
          = if silent r s.1 then Ok Skipped
            else if tick_fires tr
            then Ok (Fired
                       (padded_tensor (numFrames (settings e))
                          (columnTruncateLength (settings e))
                          (push_shift (numFrames (settings e)) (freqDataQueue r)
                             (frame_of r s.1)))
                       None)
            else Ok Pushed.
Proof.
  intros Hnew Hstart Hctl Hraw.
  exact (started_tick_outcome cfg node e e0 samples s Hnew Hstart Hctl Hraw).
Qed.

(** The scenario's extractor after 19 audible ticks: the twentieth
    fires. *)
Lemma ticks_fire_with_the_tracker_witness :
  ∃ e e0 tr,
    Extractor.new (Some Scenario.config) = Ok e
    ∧ Extractor.start Scenario.node e = (e0, Ok tt)
    ∧ tracker (run (replicate 19 Scenario.tone) e0) = Some tr
    ∧ tick_fires tr = true
    ∧ is_fired (snd (onAudioFrame (fst Scenario.tone) (snd Scenario.tone)
                       (run (replicate 19 Scenario.tone) e0))) = true.
Proof.
  do 2 eexists.
  assert (Hstart : ∀ e, Extractor.new (Some Scenario.config) = Ok e →
            Extractor.start Scenario.node e
            = (fst (Extractor.start Scenario.node e), Ok tt)).
  { intros e [= <-]. reflexivity. }
  destruct (ticks_fire_with_the_tracker Scenario.config Scenario.node _ _
              (replicate 19 Scenario.tone) Scenario.tone eq_refl (Hstart _ eq_refl))
    as (tr & Htr & Hout); [reflexivity|reflexivity|].
  exists tr. split; [reflexivity|]. split; [apply Hstart; reflexivity|].
  split; [exact Htr|].
  assert (Hfires : tick_fires tr = true).
  { assert (Some (tick_fires tr) = Some true) as [= ->]; [|done].
    change (Some (tick_fires tr)) with (tick_fires <$> Some tr).
    rewrite <-Htr. by vm_compute. }
  split; [exact Hfires|].
  rewrite Hout, Hfires. by vm_compute.
Defined.

(** With a callback that never asks for a rest, the next tick of a run
    fires exactly when it is audible and its number among the audible
    ticks is a multiple of the period. *)
Lemma next_tick_fires_iff (cfg : Config) (node : AnalyserNode)
    (e e0 : Extractor.t) (samples : list (TypedArray.t * TypedArray.t))
    (s : TypedArray.t * TypedArray.t) :
  Extractor.new (Some cfg) = Ok e →
  Extractor.start node e = (e0, Ok tt) →
  0 < columnTruncateLength (settings e) →
  includeRawAudio (settings e) = false →
  (∀ freq time, spectrogramCallback (settings e) freq time = false) →
  is_fired (snd (onAudioFrame s.1 s.2 (run samples e0))) = true
  ↔ silent (run samples e0) s.1 = false
    ∧ (period_of (settings e)
       | Z.of_nat (audible_ticks (freqData e0) samples) + 1).
Proof.
  intros Hnew Hstart Hctl Hraw Hnever.
  destruct (started_tick_outcome cfg node e e0 samples s Hnew Hstart Hctl Hraw)
    as (tr & Htr & ->).
  destruct (started_run_tracker cfg node e e0 samples Hnew Hstart)
    as (tr' & Htr' & Hc & Hp & _ & Hon).
  rewrite Htr in Htr'. injection Htr' as <-.
  pose proof (period_of_positive (settings e)) as HP.
  pose proof (tick_fires_unsuppressed tr (Hon Hnever)) as Hiff.
  rewrite Hc, Hp in Hiff. specialize (Hiff ltac:(lia) HP).
  destruct (silent (run samples e0) s.1).
  - simpl. split; [done|]. by intros [? _].
  - destruct (tick_fires tr); simpl.
    + split; [intros _|done]. split; [done|]. by apply Hiff.
    + split; [done|]. intros [_ Hdiv]. by apply Hiff in Hdiv.
Qed.

(** The schedule of a run whose callback never asks for a rest, in terms
    of the period [start] computes. *)
Lemma run_schedule (cfg : Config) (node : AnalyserNode)
    (e e0 : Extractor.t) (samples : list (TypedArray.t * TypedArray.t)) :
  Extractor.new (Some cfg) = Ok e →
  Extractor.start node e = (e0, Ok tt) →
  0 < columnTruncateLength (settings e) →
  includeRawAudio (settings e) = false →
  (∀ freq time, spectrogramCallback (settings e) freq time = false) →
  (∀ s : TypedArray.t * TypedArray.t,
     is_fired (snd (onAudioFrame s.1 s.2 (run samples e0))) = true
     ↔ silent (run samples e0) s.1 = false
       ∧ (period_of (settings e)
          | Z.of_nat (audible_ticks (freqData e0) samples) + 1))
  ∧ Z.of_nat (invocations samples e0)
    = Z.of_nat (audible_ticks (freqData e0) samples) / period_of (settings e).
Proof.
  intros Hnew Hstart Hctl Hraw Hnever.
  split; [intros s; by apply (next_tick_fires_iff cfg node)|].
  destruct (start_ok node e e0 Hstart) as (_ & Ha & _).
  pose proof (period_of_positive (settings e)) as HP.
  unfold invocations.
  induction samples as [|s samples IH] using rev_ind.
  - unfold audible_ticks. simpl. by rewrite Z.div_0_l by lia.
  - rewrite outcomes_snoc, filter_app, length_app, audible_ticks_snoc by done.
    pose proof (next_tick_fires_iff cfg node e e0 samples s
                  Hnew Hstart Hctl Hraw Hnever) as Hiff.
    rewrite Nat2Z.inj_add, IH.
    set (n := Z.of_nat (audible_ticks (freqData e0) samples)) in *.
    destruct (silent (run samples e0) s.1).
    + rewrite filter_cons_False, Nat.add_0_r; [subst n; simpl; lia|].
      intros Hf. apply Hiff in Hf. by destruct Hf.
    + replace (Z.of_nat (audible_ticks (freqData e0) samples + 1)) with (n + 1)
        by (unfold n; lia).
      rewrite div_succ by lia.
      destruct (decide ((n + 1) mod period_of (settings e) = 0)) as [Hd|Hnd].
      * rewrite filter_cons_True; [simpl; lia|].
        apply Hiff. split; [done|]. apply Z.mod_divide; [lia|done].
      * rewrite filter_cons_False; [simpl; lia|].
        intros Hf. apply Hiff in Hf. destruct Hf as [_ Hdiv].
        apply Hnd. apply Z.mod_divide; [lia|done].
Qed.

(** The schedule of an extractor whose callback never asks for a rest, as
    the one of [init], without raw audio and with a positive
    [columnTruncateLength]: the k-th audible tick invokes the callback
    exactly when k is a multiple of the period of the tracker that [start]
    built, silent ticks not counting; so a run with [n] audible ticks
    invokes it [n / period] times. *)
Theorem callback_fires_every_period (cfg : Config) (node : AnalyserNode)
    (e e0 : Extractor.t) (tr0 : Tracker.t)
    (samples : list (TypedArray.t * TypedArray.t)) :
  Extractor.new (Some cfg) = Ok e →
  Extractor.start node e = (e0, Ok tt) →
  tracker e0 = Some tr0 →
  0 < columnTruncateLength (settings e) →
  includeRawAudio (settings e) = false →
  (∀ freq time, spectrogramCallback (settings e) freq time = false) →
  (∀ s : TypedArray.t * TypedArray.t,
     is_fired (snd (onAudioFrame s.1 s.2 (run samples e0))) = true
     ↔ silent (run samples e0) s.1 = false
       ∧ (Tracker.period tr0
          | Z.of_nat (audible_ticks (freqData e0) samples) + 1))
  ∧ Z.of_nat (invocations samples e0)
    = Z.of_nat (audible_ticks (freqData e0) samples) / Tracker.period tr0.
Proof.
  intros Hnew Hstart Htr0 Hctl Hraw Hnever.
  destruct (start_fields node e e0 Hstart) as (_ & _ & _ & _ & Htr & _).
  rewrite Htr in Htr0. injection Htr0 as <-. cbn [Tracker.period].
  by apply (run_schedule cfg node).
Qed.

(** The scenario's extractor, whose tracker has period 20, over 45 audible
    ticks: two invocations. *)
Lemma callback_fires_every_period_witness :
  ∃ e e0,
    Extractor.new (Some Scenario.config) = Ok e
    ∧ Extractor.start Scenario.node e = (e0, Ok tt)
    ∧ tracker e0 = Some (Tracker.mk 20 0 0 None)
    ∧ Z.of_nat (invocations (replicate 45 Scenario.tone) e0)
      = Z.of_nat (audible_ticks (freqData e0) (replicate 45 Scenario.tone)) / 20.
Proof.
  do 2 eexists.
  assert (Hstart : ∀ e, Extractor.new (Some Scenario.config) = Ok e →
            Extractor.start Scenario.node e
            = (fst (Extractor.start Scenario.node e), Ok tt)).
  { intros e [= <-]. reflexivity. }
  split; [reflexivity|]. split; [apply Hstart; reflexivity|].
  split; [reflexivity|].
  apply (callback_fires_every_period Scenario.config Scenario.node _ _
           (Tracker.mk 20 0 0 None) (replicate 45 Scenario.tone)
           eq_refl (Hstart _ eq_refl));
    reflexivity.
Defined.

(** With raw audio, the time-domain queue grows by one frame per audible
    tick and is never shortened. *)
Lemma run_time_queue (samples : list (TypedArray.t * TypedArray.t)) :
  ∀ (e : Extractor.t) (tr : Tracker.t),
    includeRawAudio (settings e) = true → is_Some (analyser e) →
    tracker e = Some tr →
    length (timeDataQueue (run samples e))
    = (length (timeDataQueue e) + audible_ticks (freqData e) samples)%nat.
Proof.
  unfold audible_ticks.
  induction samples as [|s samples IH]; intros e tr Hraw Ha Htr; simpl; [lia|].
  pose proof (onAudioFrame_next s.1 s.2 e tr Ha Htr) as Hnext.
  change (is_neg_infinity (head (getFloatData (freqData e) s.1)))
    with (silent e s.1).
  change (getFloatData (freqData e) s.1) with (sample_read e s.1).
  unfold run. simpl. fold (run samples (fst (onAudioFrame s.1 s.2 e))).
  destruct (silent e s.1).
  - rewrite Hnext. by rewrite (IH _ tr).
  - destruct Hnext as (tr1 & _ & ->).
    destruct (after_push_fields s.1 s.2 e) as (Hs & Ha' & _ & _).
    destruct (after_push_buffers s.1 s.2 e) as (Hbuf & _ & Htq).
    rewrite (IH _ tr1); [|by rewrite <-Hs in Hraw|by rewrite <-Ha' in Ha|done].
    cbn [timeDataQueue freqData set_tracker]. rewrite Hbuf, Htq, Hraw, length_app.
    simpl. lia.
Qed.

(** Once the time-domain queue is longer than the window, its tensor
    cannot be built. *)
Lemma streaming_time_overflow (ts : TypedArray.t) (e : Extractor.t) :
  streaming e → includeRawAudio (settings e) = true →
  numFrames (settings e) <= Z.of_nat (length (timeDataQueue e)) →
  let queue := timeDataQueue e ++ [getFloatData (timeData e) ts] in
  flattenQueue queue = Ok (concat queue)
  ∧ getInputTensorFromFrequencyData (concat queue)
      [1; numFrames (settings e) * fftSize (settings e)]
    = Throw RangeError.
Proof.
  intros (_ & _ & Hcap & Hctl & _ & _ & _ & Htime) Hraw Hover queue.
  destruct (Htime Hraw) as [Hbuf Hall].
  assert (Hwidth : Forall (fun f : Frame => length f = Z.to_nat (fftSize (settings e)))
                     queue).
  { apply Forall_app. split.
    - eapply Forall_impl; [exact Hall|]. intros f Hf. simpl in Hf. lia.
    - apply Forall_singleton. rewrite length_getFloatData. lia. }
  assert (Hne : queue ≠ []) by (unfold queue; by destruct (timeDataQueue e)).
  split.
  - apply (flattenQueue_uniform _ _ Hne Hwidth).
  - apply getInputTensor_too_long.
    rewrite (length_concat_uniform _ _ Hwidth).
    unfold queue, sizeFromShape. rewrite length_app. simpl. nia.
Qed.

(** The raw-audio option: the time-domain queue is never evicted, so it
    holds one frame per audible tick of the run; and from the moment it
    holds more frames than a spectrogram has, every tick on which the
    tracker fires throws a RangeError instead of invoking the callback. *)
Theorem raw_audio_queue_overflows (cfg : Config) (node : AnalyserNode)
    (e e0 : Extractor.t) (samples : list (TypedArray.t * TypedArray.t))
    (s : TypedArray.t * TypedArray.t) :
  Extractor.new (Some cfg) = Ok e →
  Extractor.start node e = (e0, Ok tt) →
  0 < columnTruncateLength (settings e) →
  includeRawAudio (settings e) = true →
  let r := run samples e0 in
  length (timeDataQueue r) = audible_ticks (freqData e0) samples
  ∧ ∀ tr : Tracker.t,
      tracker r = Some tr → silent r s.1 = false → tick_fires tr = true →
      numFrames (settings e) <= Z.of_nat (audible_ticks (freqData e0) samples) →
      snd (onAudioFrame s.1 s.2 r) = Throw RangeError.
Proof.
  intros Hnew Hstart Hctl Hraw r.
  pose proof (started_streaming cfg node e e0 Hnew Hstart Hctl) as Hstream0.
  pose proof (streaming_run samples e0 Hstream0) as Hstream. fold r in Hstream.
  destruct (start_ok node e e0 Hstart) as (Hs0 & Ha & _).
  destruct (start_fields node e e0 Hstart) as (_ & _ & _ & _ & Htr0 & Htime).
  rewrite Hraw in Htime. destruct Htime as [Htq0 _].
  destruct (run_fields samples e0 Ha) as [Hs Har]. fold r in Hs, Har.
  assert (Hlen : length (timeDataQueue r) = audible_ticks (freqData e0) samples).
  { unfold r. rewrite (run_time_queue samples e0 _ ltac:(by rewrite Hs0) Ha Htr0).
    by rewrite Htq0. }
  split; [done|].
  intros tr Htr Hsilent Hfire Hover.
  assert (Har' : is_Some (analyser r)) by (by rewrite Har).
  assert (Hraw' : includeRawAudio (settings r) = true) by (by rewrite Hs, Hs0).
  destruct (streaming_freq_tensor s.1 r Hstream) as [Hflat Htensor].
  destruct (streaming_time_overflow s.2 r Hstream Hraw') as [Htflat Httensor].
  { rewrite Hs, Hs0, Hlen. done. }
  destruct (after_push_fields s.1 s.2 r) as (_ & _ & _ & Hq).
  destruct (after_push_buffers s.1 s.2 r) as (_ & _ & Htq).
  rewrite Hraw' in Htq.
  cbv zeta in Hflat, Htensor, Htflat, Httensor.
  rewrite <-Hq in Hflat, Htensor. rewrite <-Htq in Htflat, Httensor.
  rewrite (audible_tick_fire_raw s.1 s.2 r tr _ _ _ Har' Hsilent Htr Hfire Hraw'
             Hflat Htensor Htflat).
  by rewrite Httensor.
Qed.

(** A window of 2 frames with raw audio and no overlap: the fourth audible
    tick, on which the tracker fires, throws. *)
Lemma raw_audio_queue_overflows_witness :
  let cfg := mkConfig (Some Scenario.never_rest) 2 0 None (Some 2) None 0 true in
  let tone := ([JS.Fin 1; JS.Fin 2], [JS.Fin 3; JS.Fin 4]) in
  ∃ e e0,
    Extractor.new (Some cfg) = Ok e
    ∧ Extractor.start Scenario.node e = (e0, Ok tt)
    ∧ length (timeDataQueue (run (replicate 3 tone) e0)) = 3%nat
    ∧ snd (onAudioFrame tone.1 tone.2 (run (replicate 3 tone) e0))
      = Throw RangeError.
Proof.
  intros cfg tone. do 2 eexists.
  assert (Hstart : ∀ e, Extractor.new (Some cfg) = Ok e →
            Extractor.start Scenario.node e
            = (fst (Extractor.start Scenario.node e), Ok tt)).
  { intros e [= <-]. reflexivity. }
  split; [reflexivity|]. split; [apply Hstart; reflexivity|].
  destruct (raw_audio_queue_overflows cfg Scenario.node _ _ (replicate 3 tone) tone
              eq_refl (Hstart _ eq_refl)) as [Hlen Hthrow];
    [reflexivity|reflexivity|].
  split; [exact Hlen|].
  eapply Hthrow; [reflexivity|reflexivity|reflexivity|by vm_compute].
Defined.

(** The ranges the constructor checks. *)
Lemma new_ranges (cfg : Config) (e : Extractor.t) :
  Extractor.new (Some cfg) = Ok e →
  (0 <= overlapFactor (settings e))%Q
  ∧ (overlapFactor (settings e) < 1)%Q
  ∧ (0 <= suppressionTimeMillis (settings e))%Q.
Proof.
  unfold Extractor.new. intros H.
  destruct (cfg_spectrogramCallback cfg); [|done].
  destruct (decide _); [done|].
  destruct (Qlt_le_dec _ _) as [|Hsupp]; [done|].
  destruct (Qle_bool 0 (cfg_overlapFactor cfg)) eqn:Hlo; [|done].
  destruct (Qle_bool 1 (cfg_overlapFactor cfg)) eqn:Hhi; [done|].
  simpl in H. destruct (decide _); [done|].
  injection H as <-. simpl. split_and!.
  - by apply Qle_bool_iff.
  - apply Qnot_le_lt. intros Hle. apply Qle_bool_iff in Hle. congruence.
  - done.
Qed.

Lemma round_window_le (n : Z) (o : Q) :
  0 <= n → (0 <= o)%Q → (o < 1)%Q →
  JS.round (inject_Z n * (1 - o)) <= n.
Proof.
  intros Hn Ho1 Ho2. unfold JS.round.
  assert (H : (inject_Z (Qfloor (inject_Z n * (1 - o) + (1 # 2))) < inject_Z (n + 1))%Q).
  { eapply Qle_lt_trans; [apply Qfloor_le|].
    rewrite inject_Z_plus.
    assert (0 <= inject_Z n * o)%Q.
    { apply Qmult_le_0_compat; [|done].
      change (inject_Z 0 <= inject_Z n)%Q. by rewrite <-Zle_Qle. }
    assert (Hone : (inject_Z 1 == 1)%Q) by reflexivity. rewrite Hone. Lqa.lra. }
  rewrite <-Zlt_Qlt in H. lia.
Qed.

Lemma round_window_no_overlap (n : Z) (o : Q) :
  (o == 0)%Q → JS.round (inject_Z n * (1 - o)) = n.
Proof.
  intros Ho. unfold JS.round.
  assert (H : (inject_Z n * (1 - o) + (1 # 2) == inject_Z n + (1 # 2))%Q)
    by (rewrite Ho; ring).
  rewrite H. apply Z.le_antisymm.
  - assert (Hlt : (inject_Z (Qfloor (inject_Z n + (1 # 2))) < inject_Z (n + 1))%Q).
    { eapply Qle_lt_trans; [apply Qfloor_le|]. rewrite inject_Z_plus.
      assert (Hone : (inject_Z 1 == 1)%Q) by reflexivity. rewrite Hone. Lqa.lra. }
    rewrite <-Zlt_Qlt in Hlt. lia.
  - rewrite <-(Qfloor_Z n) at 1. apply Qfloor_resp_le. Lqa.lra.
Qed.

(** The tracker [start] builds: it has made no tick and has no
    suppression onset; its period is at least 1 and at most the number of
    frames of a spectrogram, and is that number when the overlap factor is
    zero. *)
Theorem start_gives_a_period_within_the_window (cfg : Config)
    (node : AnalyserNode) (e e0 : Extractor.t) :
  Extractor.new (Some cfg) = Ok e →
  Extractor.start node e = (e0, Ok tt) →
  ∃ tr, tracker e0 = Some tr
        ∧ Tracker.counter tr = 0
        ∧ Tracker.suppressionOnset tr = None
        ∧ 1 <= Tracker.period tr <= numFrames (settings e)
        ∧ ((overlapFactor (settings e) == 0)%Q →
           Tracker.period tr = numFrames (settings e)).
Proof.
  intros Hnew Hstart.
  destruct (new_ok cfg e Hnew) as (_ & Hcap & _).
  destruct (new_ranges cfg e Hnew) as (Ho1 & Ho2 & _).
  destruct (start_fields node e e0 Hstart) as (_ & _ & _ & _ & Htr & _).
  eexists. split; [exact Htr|]. simpl.
  pose proof (round_window_le (numFrames (settings e)) _ ltac:(lia) Ho1 Ho2) as Hle.
  unfold period_of. split_and!; try done; try lia.
  intros Hzero. rewrite round_window_no_overlap by done. lia.
Qed.

(** The scenario: 40 frames and an overlap of one half give a period of
    20. *)
Lemma start_gives_a_period_within_the_window_witness :
  ∃ e e0 tr,
    Extractor.new (Some Scenario.config) = Ok e
    ∧ Extractor.start Scenario.node e = (e0, Ok tt)
    ∧ tracker e0 = Some tr
    ∧ 1 <= Tracker.period tr <= 40.
Proof.
  do 2 eexists.
  assert (Hstart : ∀ e, Extractor.new (Some Scenario.config) = Ok e →
            Extractor.start Scenario.node e
            = (fst (Extractor.start Scenario.node e), Ok tt)).
  { intros e [= <-]. reflexivity. }
  destruct (start_gives_a_period_within_the_window Scenario.config Scenario.node
              _ _ eq_refl (Hstart _ eq_refl)) as (tr & Htr & _ & _ & Hp & _).
  exists tr. split; [reflexivity|]. split; [apply Hstart; reflexivity|].
  split; [exact Htr|exact Hp].
Defined.

(** What a run leaves alone besides the settings. *)
Lemma run_idle_fields (samples : list (TypedArray.t * TypedArray.t)) :
  ∀ e : Extractor.t,
    is_Some (analyser e) → is_Some (tracker e) →
    audioContext (run samples e) = audioContext e
    ∧ frameIntervalTask (run samples e) = frameIntervalTask e
    ∧ stream (run samples e) = stream e.
Proof.
  induction samples as [|s samples IH]; intros e Ha [tr Htr]; [done|].
  pose proof (onAudioFrame_next s.1 s.2 e tr Ha Htr) as Hnext.
  unfold run. simpl. fold (run samples (fst (onAudioFrame s.1 s.2 e))).
  destruct (silent e s.1).
  - rewrite Hnext. destruct (IH (set_freqData (sample_read e s.1) e)) as (-> & -> & ->);
      by eauto.
  - destruct Hnext as (tr1 & _ & ->).
    destruct (after_push_fields s.1 s.2 e) as (_ & Ha' & _ & _).
    destruct (IH (set_tracker (Some tr1) (after_push s.1 s.2 e))) as (-> & -> & ->).
    + by rewrite <-Ha' in Ha.
    + by eauto.
    + unfold after_push. by destruct (includeRawAudio _).
Qed.

Lemma start_succeeds (node : AnalyserNode) (e : Extractor.t) :
  frameIntervalTask e = None → 0 <= fftSize (settings e) →
  ∃ e0, Extractor.start node e = (e0, Ok tt).
Proof.
  intros Htask Hfft. unfold Extractor.start. unfold_monad. rewrite Htask. simpl.
  unfold TypedArray.make. rewrite decide_False by lia. simpl.
  fold (period_of (settings e)). pose proof (period_of_positive (settings e)).
  unfold Tracker.new. rewrite decide_True by lia.
  destruct (includeRawAudio _); simpl; by eexists.
Qed.

(** After the [stop()] that throws, the extractor is idle all the same:
    [start] succeeds again, on any node, and begins anew with an empty
    queue and the tracker of the first start. *)
Theorem restart_after_stop (cfg : Config) (node node' : AnalyserNode)
    (e e0 : Extractor.t) (samples : list (TypedArray.t * TypedArray.t)) :
  Extractor.new (Some cfg) = Ok e →
  Extractor.start node e = (e0, Ok tt) →
  ∃ e1 e2,
    Extractor.stop (run samples e0) = (e1, Throw TypeError)
    ∧ Extractor.start node' e1 = (e2, Ok tt)
    ∧ settings e2 = settings e
    ∧ freqDataQueue e2 = []
    ∧ tracker e2 = tracker e0.
Proof.
  intros Hnew Hstart.
  destruct (new_ok cfg e Hnew) as (_ & _ & _ & _ & _ & _ & _ & _ & _ & _ & Hctx & _).
  destruct (start_ok node e e0 Hstart) as (Hs0 & Ha & _ & Htr & Htask & Hctx' & _).
  destruct (start_fields node e e0 Hstart) as (_ & Hfft & _ & _ & Htr0 & _).
  destruct (run_fields samples e0 Ha) as [Hs Har].
  destruct (run_idle_fields samples e0 Ha Htr) as (Hrc & Hrt & _).
  set (r := run samples e0) in *.
  destruct Ha as [a Ha]. destruct Htask as [task Htask].
  assert (Hstop : Extractor.stop r
            = (set_analyser
                 (Some (mkAnalyser (node_fftSize a) (smoothingTimeConstant a) false))
                 (set_frameIntervalTask None r),
               Throw TypeError)).
  { unfold Extractor.stop. unfold_monad.
    by rewrite Hrt, Htask, Har, Ha, Hrc, Hctx', Hctx. }
  eexists. rewrite Hstop.
  set (e1 := set_analyser _ _).
  destruct (start_succeeds node' e1) as [e2 Hstart2];
    [done|
     unfold e1; cbn [settings set_analyser set_frameIntervalTask];
     by rewrite Hs, Hs0|].
  exists e2. split; [done|]. split; [done|].
  destruct (start_fields node' e1 e2 Hstart2) as (Hs2 & _ & Hq2 & _ & Htr2 & _).
  unfold e1 in Hs2, Htr2.
  cbn [settings set_analyser set_frameIntervalTask] in Hs2, Htr2.
  rewrite Hs, Hs0 in Hs2, Htr2. by rewrite Htr0.
Qed.

(** The scenario's extractor, stopped after three ticks and started
    again. *)
Lemma restart_after_stop_witness :
  ∃ e e0 e1 e2,
    Extractor.new (Some Scenario.config) = Ok e
    ∧ Extractor.start Scenario.node e = (e0, Ok tt)
    ∧ Extractor.stop (run (replicate 3 Scenario.tone) e0) = (e1, Throw TypeError)
    ∧ Extractor.start Scenario.node e1 = (e2, Ok tt)
    ∧ freqDataQueue e2 = []
    ∧ tracker e2 = tracker e0.
Proof.
  do 2 eexists.
  assert (Hstart : ∀ e, Extractor.new (Some Scenario.config) = Ok e →
            Extractor.start Scenario.node e
            = (fst (Extractor.start Scenario.node e), Ok tt)).
  { intros e [= <-]. reflexivity. }
  destruct (restart_after_stop Scenario.config Scenario.node Scenario.node _ _
              (replicate 3 Scenario.tone) eq_refl (Hstart _ eq_refl))
    as (e1 & e2 & Hstop & Hstart2 & _ & Hq & Htr).
  exists e1, e2. split; [reflexivity|]. split; [apply Hstart; reflexivity|].
  split; [exact Hstop|]. split; [exact Hstart2|]. split; [exact Hq|exact Htr].
Defined.

Lemma length_pushed_frames (c c' : Z) (samples : list (TypedArray.t * TypedArray.t)) :
  ∀ buf : TypedArray.t,
    length (pushed_frames c buf samples) = length (pushed_frames c' buf samples).
Proof.
  induction samples as [|s samples IH]; intros buf; simpl; [done|].
  destruct (is_neg_infinity _); simpl; by rewrite (IH (getFloatData buf s.1)).
Qed.

(** The tensor of a firing is the window: the frames pushed so far, the
    current one included, or the last [numFrames] of them once there are
    that many, in push order; zeros stand in front for the frames that are
    still missing, and there is no zero once the window is full. *)
Theorem fired_tensor_is_the_window (cfg : Config) (node : AnalyserNode)
    (e e0 : Extractor.t) (samples : list (TypedArray.t * TypedArray.t))
    (s : TypedArray.t * TypedArray.t) (tr : Tracker.t) :
  Extractor.new (Some cfg) = Ok e →
  Extractor.start node e = (e0, Ok tt) →
  0 < columnTruncateLength (settings e) →
  includeRawAudio (settings e) = false →
  tracker (run samples e0) = Some tr →
  silent (run samples e0) s.1 = false →
  tick_fires tr = true →
  let capacity := numFrames (settings e) in
  let width := columnTruncateLength (settings e) in
  let frames := pushed_frames width (freqData e0) (samples ++ [s]) in
  let window := drop (length frames - Z.to_nat capacity) frames in
  snd (onAudioFrame s.1 s.2 (run samples e0))
  = Ok (Fired (padded_tensor capacity width window) None)
  ∧ length (concat window)
    = (Nat.min (length frames) (Z.to_nat capacity) * Z.to_nat width)%nat
  ∧ (capacity <= Z.of_nat (length frames) →
     padded_tensor capacity width window
     = mkTensor (concat window) [1; capacity; width; 1]).
Proof.
  intros Hnew Hstart Hctl Hraw Htr Hsilent Hfire capacity width frames window.
  subst capacity width.
  destruct (new_ok cfg e Hnew) as (_ & Hcap & _).
  pose proof (started_streaming cfg node e e0 Hnew Hstart Hctl) as Hstream0.
  pose proof (streaming_run samples e0 Hstream0) as Hstream.
  pose proof (streaming_run (samples ++ [s]) e0 Hstream0) as Hstream'.
  destruct (start_ok node e e0 Hstart) as (Hs0 & Ha & Hq0 & _).
  destruct (run_fields samples e0 Ha) as [Hs Har].
  destruct (run_fields (samples ++ [s]) e0 Ha) as [Hs' _].
  assert (Hwindow : freqDataQueue (run (samples ++ [s]) e0) = window).
  { rewrite (run_queue (Z.to_nat (numFrames (settings e))) (samples ++ [s]));
      try done.
    - by rewrite Hq0, Hs0.
    - lia.
    - rewrite Hs0. lia.
    - rewrite Hq0. simpl. lia. }
  assert (Hpush : push_shift (numFrames (settings e)) (freqDataQueue (run samples e0))
                    (frame_of (run samples e0) s.1) = window).
  { rewrite <-Hwindow, run_snoc.
    destruct (onAudioFrame_state s.1 s.2 (run samples e0)) as (_ & _ & _ & _ & ->);
      [by rewrite Har|].
    by rewrite Hsilent, Hs, Hs0. }
  assert (Hwidth : Forall (fun f : Frame =>
                             length f = Z.to_nat (columnTruncateLength (settings e)))
                     window).
  { destruct Hstream' as (_ & _ & _ & _ & _ & Hall & _).
    rewrite Hwindow, Hs', Hs0 in Hall.
    eapply Forall_impl; [exact Hall|]. intros f Hf. simpl in Hf. lia. }
  assert (Hlen : length window
                 = Nat.min (length frames) (Z.to_nat (numFrames (settings e))))
    by (unfold window; rewrite length_drop; lia).
  split_and!.
  - rewrite (streaming_tick_outcome s.1 s.2 (run samples e0) tr Hstream);
      [|by rewrite Hs, Hs0|done].
    by rewrite Hsilent, Hfire, Hs, Hs0, Hpush.
  - by rewrite (length_concat_uniform _ _ Hwidth), Hlen.
  - intros Hfull. unfold padded_tensor.
    rewrite (length_concat_uniform _ _ Hwidth), Hlen.
    replace (Z.to_nat (numFrames (settings e) * columnTruncateLength (settings e))
             - Nat.min (length frames) (Z.to_nat (numFrames (settings e)))
               * Z.to_nat (columnTruncateLength (settings e)))%nat
      with 0%nat by nia.
    done.
Qed.

(** A window of 2 frames without overlap, at its first firing, tick 2:
    the window is full. *)
Lemma fired_tensor_is_the_window_witness :
  let cfg := mkConfig (Some Scenario.never_rest) 2 0 None (Some 2) None 0 false in
  ∃ e e0,
    Extractor.new (Some cfg) = Ok e
    ∧ Extractor.start Scenario.node e = (e0, Ok tt)
    ∧ snd (onAudioFrame (fst Scenario.tone) (snd Scenario.tone)
             (run [Scenario.tone] e0))
      = Ok (Fired
              (padded_tensor 2 2
                 (drop (2 - 2)
                    (pushed_frames 2 (freqData e0) ([Scenario.tone] ++ [Scenario.tone]))))
              None).
Proof.
  intros cfg. do 2 eexists.
  assert (Hstart : ∀ e, Extractor.new (Some cfg) = Ok e →
            Extractor.start Scenario.node e
            = (fst (Extractor.start Scenario.node e), Ok tt)).
  { intros e [= <-]. reflexivity. }
  split; [reflexivity|]. split; [apply Hstart; reflexivity|].
  apply (fired_tensor_is_the_window cfg Scenario.node _ _
           [Scenario.tone] Scenario.tone (Tracker.mk 2 0 1 None)
           eq_refl (Hstart _ eq_refl)); by vm_compute.
Defined.

End streaming_properties.

(** ** The tracker's suppression window *)

Section suppression_properties.
Import TrackerSpec.

Lemma ticks_replicate_Tick (k : nat) : ticks (replicate k Tick) = Z.of_nat k.
Proof.
  induction k as [|k IH]; [done|].
  change (replicate (S k) Tick) with ([Tick] ++ replicate k Tick).
  rewrite ticks_app, IH. unfold ticks. simpl. lia.
Qed.

Lemma exec_cons (c : Call) (calls : list Call) (tr : Tracker.t) :
  exec (c :: calls) tr = exec calls (call c tr).
Proof. reflexivity. Qed.

(** Ticks leave the suppression onset as it is. *)
Lemma exec_ticks_onset (k : nat) (tr : Tracker.t) :
  Tracker.suppressionOnset (exec (replicate k Tick) tr)
  = Tracker.suppressionOnset tr.
Proof.
  revert tr. induction k as [|k IH]; intros tr; [done|].
  change (replicate (S k) Tick) with (Tick :: replicate k Tick).
  by rewrite exec_cons, IH.
Qed.

(** The cooldown.  Whatever calls a tracker has seen, after a [suppress()]
    and [k] more ticks the next tick fires exactly when its number is a
    multiple of the period and it comes more than [suppressionTime] ticks
    after the [suppress()]; in particular none of the first
    [suppressionTime] ticks after a [suppress()] fires. *)
Theorem suppress_blocks_the_next_ticks (tr : Tracker.t) (k : nat) :
  0 < Tracker.period tr → 0 <= Tracker.counter tr →
  let after := exec (Suppress :: replicate k Tick) tr in
  ∃ b, snd (Tracker.tick after) = Ok b
       ∧ (b = true
          ↔ (Tracker.period tr | Tracker.counter tr + Z.of_nat k + 1)
            ∧ Tracker.suppressionTime tr < Z.of_nat k + 1).
Proof.
  intros HP Hc after. eexists. split; [reflexivity|].
  assert (Hafter : after = exec (replicate k Tick) (call Suppress tr))
    by apply exec_cons.
  pose proof (exec_counter (replicate k Tick) (call Suppress tr)) as Hcount.
  pose proof (exec_constants (replicate k Tick) (call Suppress tr)) as [Hp Hs].
  pose proof (exec_ticks_onset k (call Suppress tr)) as Hon.
  rewrite <-Hafter in Hcount, Hp, Hs, Hon.
  rewrite ticks_replicate_Tick in Hcount. simpl in Hcount, Hp, Hs, Hon.
  simpl. rewrite Hon, Hp, Hs, Hcount.
  rewrite andb_true_iff, rem_is_zero_spec, bool_decide_eq_true by lia.
  split; intros [Hdiv Hgt]; (split; [done|lia]).
Qed.

(** Period 3, suppression 2, a [suppress()] at tick 3: after two more
    ticks, tick 6 fires. *)
Lemma suppress_blocks_the_next_ticks_witness :
  ∃ b, snd (Tracker.tick
              (exec (Suppress :: replicate 2 Tick) (Tracker.mk 3 2 3 None))) = Ok b
       ∧ (b = true ↔ (3 | 3 + Z.of_nat 2 + 1) ∧ 2 < Z.of_nat 2 + 1).
Proof.
  apply (suppress_blocks_the_next_ticks (Tracker.mk 3 2 3 None) 2); simpl; lia.
Defined.

(** A suppression time of zero, which is what [init] configures, or a
    negative one, makes [suppress()] idle: after any sequence of calls the
    next tick fires exactly when its number is a multiple of the period. *)
Theorem suppression_of_zero_ticks_is_idle (P S : Z) (before : list Call)
    (tr : Tracker.t) :
  P > 0 → S <= 0 → Tracker.new P (Some S) = Ok tr →
  snd (Tracker.tick (exec before tr)) = Ok true ↔ (P | ticks before + 1).
Proof.
  intros HP HS Hnew. unfold Tracker.new in Hnew.
  rewrite decide_True in Hnew by done. injection Hnew as <-.
  set (tr := Tracker.mk P S 0 None).
  pose proof (exec_constants before tr) as [Hp Hs].
  pose proof (exec_counter before tr) as Hc.
  pose proof (exec_onset before tr eq_refl) as Ho.
  pose proof (ticks_nonneg before) as Hn.
  simpl in Hp, Hs, Hc, Ho |- *. rewrite Hp, Hs, Hc, Z.add_0_l.
  assert (Hiff : ∀ b1 b2 : bool, Ok (b1 && b2) = Ok true ↔ b1 = true ∧ b2 = true).
  { intros [] []; split; try done; by intros [? ?]. }
  rewrite Hiff, rem_is_zero_spec by lia.
  destruct (Tracker.suppressionOnset (exec before tr)) as [onset|].
  - destruct Ho as (pre & post & Hsplit & _ & ->).
    rewrite bool_decide_eq_true.
    assert (Hticks : ticks before = ticks pre + ticks post)
      by (by rewrite Hsplit, ticks_app, ticks_cons_Suppress).
    pose proof (ticks_nonneg post). split; [by intros [? _]|]. intros Hdiv.
    split; [done|lia].
  - split; [by intros [? _]|done].
Qed.

(** Period 2 and suppression 0: a [suppress()] after tick 3 does not stop
    tick 4. *)
Lemma suppression_of_zero_ticks_is_idle_witness :
  snd (Tracker.tick (exec [Tick; Tick; Tick; Suppress] (Tracker.mk 2 0 0 None)))
  = Ok true
  ↔ (2 | ticks [Tick; Tick; Tick; Suppress] + 1).
Proof.
  apply (suppression_of_zero_ticks_is_idle 2 0); [lia|lia|reflexivity].
Defined.

End suppression_properties.

(** ** Failures of flattening and of tensor construction *)

Section typed_array_failures.

Lemma length_set (dst src : TypedArray.t) (offset : Z) (r : TypedArray.t) :
  TypedArray.set dst src offset = Ok r → length r = length dst.
Proof.
  unfold TypedArray.set. destruct (decide _) as [|Hfits]; [done|].
  intros [= <-]. rewrite !length_app, length_take, length_drop. lia.
Qed.

Lemma length_set_each (frameSize i : Z) (queue : list Frame)
    (buf r : TypedArray.t) :
  set_each frameSize i queue buf = Ok r → length r = length buf.
Proof.
  revert i buf. induction queue as [|data queue IH]; intros i buf; simpl.
  - by intros [= <-].
  - destruct (TypedArray.set buf data _) as [buf'|] eqn:Hset; simpl; [|done].
    intros Hrest. rewrite (IH _ _ Hrest). by apply (length_set _ _ _ _ Hset).
Qed.

(** [flattenQueue] on any queue.  An empty queue is a TypeError, since the
    width is read off the first frame.  Whenever a buffer is returned, its
    length is the number of frames times the width of the first frame,
    whatever the widths of the others. *)
Theorem flattenQueue_length :
  flattenQueue [] = Throw TypeError
  ∧ ∀ (first : Frame) (rest : list Frame) (buf : TypedArray.t),
      flattenQueue (first :: rest) = Ok buf →
      length buf = (length (first :: rest) * length first)%nat.
Proof.
  split; [done|]. intros first rest buf. unfold flattenQueue, TypedArray.make.
  rewrite decide_False by lia. cbn [result_bind]. intros Hset.
  rewrite (length_set_each _ _ _ _ _ Hset), length_replicate. lia.
Qed.

(** Two frames of widths 2 and 1: four values, the last one a zero that
    no frame wrote. *)
Lemma flattenQueue_length_witness :
  flattenQueue [[JS.Fin 1; JS.Fin 2]; [JS.Fin 3]]
  = Ok [JS.Fin 1; JS.Fin 2; JS.Fin 3; JS.zero]
  ∧ length [JS.Fin 1; JS.Fin 2; JS.Fin 3; JS.zero]
    = (length [[JS.Fin 1; JS.Fin 2]; [JS.Fin 3]] * length [JS.Fin 1; JS.Fin 2])%nat.
Proof.
  split; [reflexivity|].
  apply (proj2 flattenQueue_length [JS.Fin 1; JS.Fin 2] [[JS.Fin 3]]).
  reflexivity.
Defined.

(** [getInputTensorFromFrequencyData] on a shape whose dimensions are not
    negative, the shapes [tf.tensor] takes.  It fails, with a RangeError,
    exactly when the buffer is longer than the shape has room for;
    otherwise the tensor it returns has the shape asked for and as many
    values as the shape's size. *)
Theorem getInputTensor_fails_iff (freqData : TypedArray.t) (dims : list Z) :
  Forall (fun d => 0 <= d) dims →
  0 <= sizeFromShape dims
  ∧ (getInputTensorFromFrequencyData freqData dims = Throw RangeError
     ↔ sizeFromShape dims < Z.of_nat (length freqData))
  ∧ ((∃ tensor, getInputTensorFromFrequencyData freqData dims = Ok tensor
                ∧ shape tensor = dims
                ∧ Z.of_nat (length (values tensor)) = sizeFromShape dims)
     ↔ Z.of_nat (length freqData) <= sizeFromShape dims).
Proof.
  intros Hdims. split.
  { induction Hdims as [|d dims Hd _ IH]; simpl; [lia|].
    fold (sizeFromShape dims). nia. }
  destruct (decide (sizeFromShape dims < Z.of_nat (length freqData))) as [Hlt|Hge].
  - pose proof (getInputTensor_too_long freqData dims Hlt) as Hthrow.
    split; split; try done; try lia.
    intros (tensor & Hok & _). congruence.
  - pose proof (getInputTensor_right_aligned freqData dims ltac:(lia)) as Hok.
    split; split; try lia.
    + rewrite Hok. done.
    + intros _. eexists. split; [exact Hok|]. simpl. split; [done|].
      rewrite length_app, length_replicate. lia.
Qed.

(** Three values do not fit a shape of two, and fit a shape of two by
    two. *)
Lemma getInputTensor_fails_iff_witness :
  getInputTensorFromFrequencyData [JS.Fin 1; JS.Fin 2; JS.Fin 3] [1; 2; 1]
  = Throw RangeError
  ∧ ∃ tensor,
      getInputTensorFromFrequencyData [JS.Fin 1; JS.Fin 2; JS.Fin 3] [2; 2]
      = Ok tensor
      ∧ shape tensor = [2; 2]
      ∧ Z.of_nat (length (values tensor)) = sizeFromShape [2; 2].
Proof.
  split.
  - apply (getInputTensor_fails_iff [JS.Fin 1; JS.Fin 2; JS.Fin 3] [1; 2; 1]).
    + repeat constructor; lia.
    + simpl. lia.
  - apply (getInputTensor_fails_iff [JS.Fin 1; JS.Fin 2; JS.Fin 3] [2; 2]).
    + repeat constructor; lia.
    + simpl. lia.
Defined.

End typed_array_failures.

(** ** What the constructor accepts *)

Section constructor_validation.
Import Extractor.

(** The constructor on a missing configuration, and on the configurations
    whose parameters are numbers, of which only [sampleRateHz], [fftSize]
    and [columnTruncateLength] may be omitted: every [Config] is one of
    these.  It builds an extractor exactly from the configurations
    [accepted], and rejects the others, the missing one included, with an
    invalid-argument error.  The values of [sampleRateHz] and of an omitted
    parameter are not examined, and a negative [columnTruncateLength]
    passes. *)
Theorem constructor_accepts_exactly (config : option Config) :
  match Extractor.new config with
  | Ok e => ∃ cfg, config = Some cfg ∧ accepted cfg
  | Throw err =>
      err = InvalidArgument
      ∧ ∀ cfg, config = Some cfg → ¬ accepted cfg
  end.
Proof.
  unfold Extractor.new, accepted. destruct config as [cfg|]; [|by split].
  destruct (cfg_spectrogramCallback cfg) as [cb|] eqn:Hcallback.
  2:{ split; [done|]. intros ? [= <-] (Hcb & _). rewrite Hcallback in Hcb.
      exact (is_Some_None Hcb). }
  destruct (decide (cfg_numFramesPerSpectrogram cfg <= 0)) as [Hn|Hn].
  { split; [done|]. intros ? [= <-] (_ & ? & _). lia. }
  destruct (Qlt_le_dec (cfg_suppressionTimeMillis cfg) 0) as [Hs|Hs].
  { split; [done|]. intros ? [= <-] (_ & _ & Hsupp & _).
    by apply (Qlt_not_le _ _ Hs). }
  destruct (Qle_bool 0 (cfg_overlapFactor cfg)) eqn:Hlo; simpl.
  2:{ split; [done|]. intros ? [= <-] (_ & _ & _ & Ho & _).
      apply Qle_bool_iff in Ho. congruence. }
  destruct (Qle_bool 1 (cfg_overlapFactor cfg)) eqn:Hhi; simpl.
  { split; [done|]. intros ? [= <-] (_ & _ & _ & _ & Ho & _).
    apply Qle_bool_iff in Hhi. by apply (Qlt_not_le _ _ Ho). }
  destruct (decide _) as [Hctl|Hctl].
  { split; [done|]. intros ? [= <-] (_ & _ & _ & _ & _ & ?). lia. }
  exists cfg. split; [done|]. rewrite Hcallback. split_and!; try done; try lia.
  - by apply Qle_bool_iff.
  - apply Qnot_le_lt. intros Hle. apply Qle_bool_iff in Hle. congruence.
Qed.

End constructor_validation.

(** ** The verdict of a session *)

Section verdict_properties.
Import Session.

(** The maximum of finite numbers is one of them, and none is above it. *)
Lemma max_of_fin (qs : list Q) :
  qs ≠ [] →
  ∃ m, JS.max_of (map JS.Fin qs) = JS.Fin m
       ∧ In m qs ∧ Forall (fun q => (q <= m)%Q) qs.
Proof.
  induction qs as [|q rest IH]; [done|]. intros _.
  destruct rest as [|q' rest].
  - exists q. split; [done|]. split; [by left|].
    apply Forall_singleton. apply Qle_refl.
  - destruct IH as (m' & Hmax & Hin & Hall); [done|].
    change (JS.max_of (map JS.Fin (q :: q' :: rest)))
      with (JS.max2 (JS.Fin q) (JS.max_of (map JS.Fin (q' :: rest)))).
    rewrite Hmax. unfold JS.max2, JS.gt.
    destruct (Qle_bool m' q) eqn:Hle; simpl.
    + apply Qle_bool_iff in Hle. exists q. split; [done|]. split; [by left|].
      apply Forall_cons. split; [apply Qle_refl|].
      eapply Forall_impl; [exact Hall|]. intros r Hr. simpl in Hr.
      by apply (Qle_trans _ m').
    + exists m'. split; [done|]. split; [by right|].
      apply Forall_cons. split; [|done].
      apply Qlt_le_weak, Qnot_le_lt. intros Hle'.
      apply Qle_bool_iff in Hle'. congruence.
Qed.

(** [indexOf] finds the first element equal to a number that occurs. *)
Lemma indexOf_from_found (qs : list Q) (m : Q) :
  In m qs →
  ∀ i : Z, ∃ k : nat,
    (k < length qs)%nat
    ∧ JS.indexOf_from i (map JS.Fin qs) (JS.Fin m) = i + Z.of_nat k
    ∧ (nth k qs 0 == m)%Q
    ∧ ∀ j : nat, (j < k)%nat → ¬ (nth j qs 0 == m)%Q.
Proof.
  induction qs as [|q rest IH]; [done|]. intros Hin i. simpl.
  destruct (Qeq_bool q m) eqn:Heq.
  - exists 0%nat. apply Qeq_bool_eq in Heq. simpl.
    split_and!; [lia|lia|done|]. intros j Hj. lia.
  - assert (Hne : ¬ (q == m)%Q).
    { intros Hqm. apply Qeq_bool_iff in Hqm. congruence. }
    destruct Hin as [->|Hin]; [exfalso; apply Hne; reflexivity|].
    destruct (IH Hin (i + 1)) as (k & Hk & Hidx & Hnth & Hfirst).
    exists (S k). simpl. split_and!; [lia|lia|done|].
    intros [|j] Hj; simpl; [done|]. apply Hfirst. lia.
Qed.

(** The verdict, read off the array [diagnosesArray] that the maximum is
    taken over, when its five values are finite numbers.  The result reads
    "no pathology found" exactly when the fifth value is strictly above the
    four others.  Otherwise it names the first of the four pathologies
    whose value is the largest of the five, never [undefined]: a pathology
    that ties with the fifth class is reported. *)
Theorem verdict_follows_the_stored_values (n : nat) (s s' : Session.t)
    (report : Report) (d0 d1 d2 d3 d4 : Q) :
  showMP3Result n s = (s', Ok report) →
  diagnosesArray report = [JS.Fin d0; JS.Fin d1; JS.Fin d2; JS.Fin d3; JS.Fin d4] →
  (verdict report = NoPathologyFound
   ↔ (d0 < d4)%Q ∧ (d1 < d4)%Q ∧ (d2 < d4)%Q ∧ (d3 < d4)%Q)
  ∧ (verdict report = NoPathologyFound
     ∨ ∃ (k : nat) (d : Diagnosis),
         index report = Z.of_nat k ∧ (k < 4)%nat
         ∧ diagnoses !! k = Some d
         ∧ verdict report = ProbablePathology (Some d)
         ∧ Forall (fun q => (q <= nth k [d0; d1; d2; d3; d4] 0)%Q)
             [d0; d1; d2; d3; d4]
         ∧ ∀ j : nat, (j < k)%nat →
             (nth j [d0; d1; d2; d3; d4] 0 < nth k [d0; d1; d2; d3; d4] 0)%Q).
Proof.
  intros Hrun Harray. unfold showMP3Result in Hrun.
  injection Hrun as _ <-. cbn [diagnosesArray verdict index] in *.
  rewrite Harray. clear Harray.
  change [JS.Fin d0; JS.Fin d1; JS.Fin d2; JS.Fin d3; JS.Fin d4]
    with (map JS.Fin [d0; d1; d2; d3; d4]).
  destruct (max_of_fin [d0; d1; d2; d3; d4]) as (m & -> & Hin & Hall); [done|].
  unfold JS.indexOf.
  destruct (indexOf_from_found [d0; d1; d2; d3; d4] m Hin 0)
    as (k & Hk & -> & Hnth & Hfirst).
  assert (Hlt : ∀ a : Q, (a <= m)%Q → ¬ (a == m)%Q → (a < m)%Q).
  { intros a Hle Hne. destruct (Qle_lt_or_eq _ _ Hle); [done|by destruct Hne]. }
  assert (Hmax : Forall (fun q => (q <= nth k [d0; d1; d2; d3; d4] 0)%Q)
                   [d0; d1; d2; d3; d4]).
  { eapply Forall_impl; [exact Hall|]. intros q Hq. simpl in Hq. by rewrite Hnth. }
  assert (Hbelow : ∀ j : nat, (j < k)%nat →
            (nth j [d0; d1; d2; d3; d4] 0 < nth k [d0; d1; d2; d3; d4] 0)%Q).
  { intros j Hj. rewrite Hnth. apply Hlt; [|by apply Hfirst].
    assert (Hjin : In (nth j [d0; d1; d2; d3; d4] 0%Q) [d0; d1; d2; d3; d4])
      by (apply nth_In; simpl in *; lia).
    rewrite Forall_forall in Hall. apply Hall. by apply list_elem_of_In. }
  apply Forall_cons in Hall as [H0 Hall]. apply Forall_cons in Hall as [H1 Hall].
  apply Forall_cons in Hall as [H2 Hall]. apply Forall_cons in Hall as [H3 Hall].
  apply Forall_cons in Hall as [H4 _].
  simpl in Hk.
  destruct k as [|[|[|[|[|k]]]]]; [..|lia]; simpl in Hnth.
  - split.
    + split; [done|]. intros (Hlt0 & _). rewrite Hnth in Hlt0.
      exfalso. by apply (Qle_not_lt _ _ H4).
    + right. exists 0%nat, AorticRegurgitation. split_and!; try done. lia.
  - split.
    + split; [done|]. intros (_ & Hlt1 & _). rewrite Hnth in Hlt1.
      exfalso. by apply (Qle_not_lt _ _ H4).
    + right. exists 1%nat, AorticStenosis. split_and!; try done. lia.
  - split.
    + split; [done|]. intros (_ & _ & Hlt2 & _). rewrite Hnth in Hlt2.
      exfalso. by apply (Qle_not_lt _ _ H4).
    + right. exists 2%nat, MitralRegurgitation. split_and!; try done. lia.
  - split.
    + split; [done|]. intros (_ & _ & _ & Hlt3). rewrite Hnth in Hlt3.
      exfalso. by apply (Qle_not_lt _ _ H4).
    + right. exists 3%nat, MitralStenosis. split_and!; try done. lia.
  - split; [|by left]. split; [intros _|done].
    pose proof (Hbelow 0%nat ltac:(lia)) as Hn0.
    pose proof (Hbelow 1%nat ltac:(lia)) as Hn1.
    pose proof (Hbelow 2%nat ltac:(lia)) as Hn2.
    pose proof (Hbelow 3%nat ltac:(lia)) as Hn3.
    simpl in Hn0, Hn1, Hn2, Hn3. by split_and!.
Qed.

(** One firing whose sums make the fourth class tie with the fifth: the
    values stored are 0, 0, 0, 0.5 and 0.5, and the fourth pathology is
    named. *)
Lemma verdict_follows_the_stored_values_witness :
  ∃ s' report,
    showMP3Result 5
      (Session.mk 1 [JS.Fin 0; JS.Fin 0; JS.Fin 0; JS.Fin (1 # 2); JS.Fin (1 # 2)]
         true)
    = (s', Ok report)
    ∧ diagnosesArray report
      = [JS.Fin (0 # 1000); JS.Fin (0 # 1000); JS.Fin (0 # 1000);
         JS.Fin (500 # 1000); JS.Fin (500 # 1000)]
    ∧ (verdict report = NoPathologyFound
       ↔ (0 # 1000 < 500 # 1000)%Q ∧ (0 # 1000 < 500 # 1000)%Q
         ∧ (0 # 1000 < 500 # 1000)%Q ∧ (500 # 1000 < 500 # 1000)%Q)
    ∧ verdict report = ProbablePathology (Some MitralStenosis).
Proof.
  do 2 eexists. split; [reflexivity|]. split; [reflexivity|].
  split; [|reflexivity].
  apply (proj1 (verdict_follows_the_stored_values 5
                  (Session.mk 1 [JS.Fin 0; JS.Fin 0; JS.Fin 0; JS.Fin (1 # 2);
                                 JS.Fin (1 # 2)] true)
                  _ _ (0 # 1000) (0 # 1000) (0 # 1000) (500 # 1000) (500 # 1000)
                  eq_refl eq_refl)).
Defined.

(** [showMP3Result] ends every session the same way, whatever was
    recorded and whatever it showed: the counter is 0, every sum is 0 and
    [isProcess] is false, provided there are at least as many labels as
    sums; with the five sums of the page, the globals are back to what
    [init] left. *)
Theorem showMP3Result_resets (n : nat) (s : Session.t) :
  (length (predictionSumArray s) <= n)%nat →
  fst (showMP3Result n s)
  = Session.mk 0 (replicate (length (predictionSumArray s)) JS.zero) false
  ∧ (length (predictionSumArray s) = 5%nat → fst (showMP3Result n s) = init).
Proof.
  intros Hn.
  assert (Hreset : fst (showMP3Result n s)
            = Session.mk 0 (replicate (length (predictionSumArray s)) JS.zero) false).
  { unfold showMP3Result. cbn [fst]. f_equal. apply list_eq. intros j.
    rewrite (proj2 (for_range_pointwise (fun _ _ => JS.zero) n (predictionSumArray s))).
    destruct (decide (j < length (predictionSumArray s))%nat) as [Hlt|Hge].
    - rewrite decide_True by lia.
      destruct (lookup_lt_is_Some_2 _ _ Hlt) as [x ->]. simpl.
      symmetry. by apply lookup_replicate_2.
    - rewrite (lookup_ge_None_2 (predictionSumArray s) j) by lia.
      rewrite (lookup_ge_None_2 (replicate _ _) j) by (rewrite length_replicate; lia).
      by destruct (decide _). }
  split; [done|]. intros Hfive. by rewrite Hreset, Hfive.
Qed.

(** A session whose sums hold NaN is reset like any other. *)
Lemma showMP3Result_resets_witness :
  fst (showMP3Result 5
         (Session.mk 7 [JS.NaN; JS.Fin 1; JS.PosInf; JS.Fin 2; JS.Fin 3] true))
  = init.
Proof.
  apply (showMP3Result_resets 5
           (Session.mk 7 [JS.NaN; JS.Fin 1; JS.PosInf; JS.Fin 2; JS.Fin 3] true));
    [simpl; lia|reflexivity].
Defined.

End verdict_properties.

(** ** The volume slider *)

Section volume_properties.
Import String.

(** The gain [changeVolume] sets, when both attributes of the slider parse
    to numbers and the maximum is not zero: the square of the fraction
    [value / max], whatever the gain was; it is never negative, and at most
    1 when the value lies between 0 and a positive maximum. *)
Theorem changeVolume_sets_squared_fraction
    (parseInt : String.string → JS.num) (element : Player.Slider)
    (gain : JS.num) (v m : Q) :
  parseInt (Player.value element) = JS.Fin v →
  parseInt (Player.max element) = JS.Fin m →
  ¬ (m == 0)%Q →
  Player.changeVolume parseInt element gain
  = (JS.Fin ((v / m) * (v / m)), Ok tt)
  ∧ (0 <= (v / m) * (v / m))%Q
  ∧ ((0 <= v)%Q → (v <= m)%Q → ((v / m) * (v / m) <= 1)%Q).
Proof.
  intros Hv Hm Hne. unfold Player.changeVolume. rewrite Hv, Hm.
  unfold JS.div.
  destruct (Qeq_bool m 0) eqn:Hzero; [by apply Qeq_bool_eq in Hzero|].
  split; [done|]. split.
  - generalize (v / m)%Q. intros f. Lqa.nra.
  - intros Hv0 Hvm.
    assert (Hmpos : (0 < m)%Q).
    { destruct (Qlt_le_dec 0 m) as [|Hle]; [done|].
      exfalso. apply Hne. Lqa.lra. }
    assert (Hf0 : (0 <= v / m)%Q) by (apply Qle_shift_div_l; [done|]; Lqa.lra).
    assert (Hf1 : (v / m <= 1)%Q) by (apply Qle_shift_div_r; [done|]; Lqa.lra).
    revert Hf0 Hf1. generalize (v / m)%Q. intros f Hf0 Hf1. Lqa.nra.
Qed.

(** A slider at 50 of 100: a gain of one quarter. *)
Lemma changeVolume_sets_squared_fraction_witness :
  let parseInt := fun s : String.string =>
    if String.eqb s "100"%string then JS.Fin 100 else JS.Fin 50 in
  Player.changeVolume parseInt (Player.mkSlider "50"%string "100"%string) JS.zero
  = (JS.Fin ((50 / 100) * (50 / 100)), Ok tt).
Proof.
  intros parseInt.
  apply (changeVolume_sets_squared_fraction parseInt
           (Player.mkSlider "50"%string "100"%string) JS.zero 50 100);
    [reflexivity|reflexivity|done].
Defined.

End volume_properties.
